(** * Coordinator/worker MPI programs: matrix_add_v2.c and scatter_matrix_mult.c

    A shallow embedding of the two [main] functions of the repository and of
    the part of the MPI transport they rely on (scatter, broadcast, blocking
    tagged send and receive), followed by the properties of the written
    specification, each settled against the embedded code.

    Conventions.
    - Group size [np], ranks [me] and array indices are natural numbers
      (MPI_Comm_size yields [np >= 1] and MPI_Comm_rank yields [me < np]).
    - Elements of C [int] arrays are integers with the 32-bit two's
      complement wrap-around written out; C [float] is IEEE binary32,
      modelled by the Standard Library's [spec_float] at precision 24.
    - Arrays are lists of their declared length; a load or store outside
      that length is a [Fault] (undefined behaviour in C).
    - Each process is a function of its rank in a small monad that threads
      the process memory, collects the trace of observable events and stops
      early on [exit]. *)

From Stdlib Require Import String.
From Stdlib Require Import ZArith List Lia Bool Arith PeanoNat.
From Stdlib Require Import SpecFloat.
Import ListNotations.

Set Implicit Arguments.

(* ------------------------------------------------------------------ *)
(** ** C data *)

Module C.

(** Two's complement reduction of an integer to a 32-bit [int]. *)
Definition wrap32 (z : Z) : Z := ((z + 2 ^ 31) mod 2 ^ 32 - 2 ^ 31)%Z.

Definition int_add (x y : Z) : Z := wrap32 (x + y).

Definition int_mul (x y : Z) : Z := wrap32 (x * y).

Definition int_of_nat (n : nat) : Z := wrap32 (Z.of_nat n).

(** IEEE binary32. *)
Definition float32 : Type := spec_float.
Definition prec32 : Z := 24%Z.
Definition emax32 : Z := 128%Z.

Definition f32_zero : float32 := S754_zero false.
Definition f32_add (x y : float32) : float32 := SFadd prec32 emax32 x y.
Definition f32_mul (x y : float32) : float32 := SFmul prec32 emax32 x y.

(** Conversion [(float) z] of an [int] value. *)
Definition f32_of_Z (z : Z) : float32 := binary_normalize prec32 emax32 z 0 false.

(** The integer a float stands for, when it stands for one:
    [m * 2 ^ e] with the sign, for a finite float whose value has no
    fractional part. *)
Definition f32_to_Z (f : float32) : option Z :=
  match f with
  | S754_zero _ => Some 0%Z
  | S754_finite sg m e =>
      let mag :=
        if (0 <=? e)%Z then Some (Z.pos m * 2 ^ e)%Z
        else if (Z.pos m mod 2 ^ (- e) =? 0)%Z then Some (Z.pos m / 2 ^ (- e))%Z
             else None in
      option_map (fun z => if sg then (- z)%Z else z) mag
  | S754_infinity _ | S754_nan => None
  end.

End C.

(* ------------------------------------------------------------------ *)
(** ** Fixed-size buffers *)

Section Buffers.
Context {T : Type}.

Definition load (buf : list T) (i : nat) : option T := nth_error buf i.

Definition store (buf : list T) (i : nat) (v : T) : option (list T) :=
  if i <? length buf
  then Some (firstn i buf ++ v :: skipn (S i) buf)
  else None.

(** Copy [data] into [buf] from index [off] on; [None] when it does not fit. *)
Definition blit (buf : list T) (off : nat) (data : list T) : option (list T) :=
  if off + length data <=? length buf
  then Some (firstn off buf ++ data ++ skipn (off + length data) buf)
  else None.

(** The [cnt] elements of [buf] from index [off] on. *)
Definition slice (off cnt : nat) (buf : list T) : list T :=
  firstn cnt (skipn off buf).

End Buffers.

(* ------------------------------------------------------------------ *)
(** ** Observable events and the process monad *)

Inductive payload : Type :=
| Chars (s : string)
| Ints (l : list Z)
| Floats (l : list C.float32).

(** What a process writes on its console; only the content is kept. *)
Inductive output : Type :=
| Usage (len maxproc : nat)
| Distributing (me : nat) (host : string) (np : nat)
| Receiving (me : nat) (host : string)
| LocalData (me : nat) (host : string) (a b sum : list Z)
| RemoteSum (src : nat) (host : string) (sum : list Z)
| Ready
| SentBack (me : nat) (host : string)
| NumProcs (np : nat)
| MatrixA (a : list C.float32)
| VectorX (x : list C.float32)
| FinalVector (r : list C.float32)
| Computed (me : nat) (host : string) (r : list C.float32).

Inductive event : Type :=
| Scatter (cnt root : nat)
| Bcast (cnt root : nat)
| Send (p : payload) (dest : nat) (tag : Z)
| Recv (p : payload) (src : nat) (tag : Z)
| Print (o : output)
| Finalize.

(** Source, tag and element type of a received message. *)
Inductive kind : Type := OfChars | OfInts | OfFloats.

Definition kind_of (p : payload) : kind :=
  match p with
  | Chars _ => OfChars
  | Ints _ => OfInts
  | Floats _ => OfFloats
  end.

Definition recv_header (e : event) : option (nat * Z * kind) :=
  match e with
  | Recv p src tag => Some (src, tag, kind_of p)
  | _ => None
  end.

Definition is_usage (e : event) : bool :=
  match e with Print (Usage _ _) => true | _ => false end.

Definition is_comm (e : event) : bool :=
  match e with
  | Scatter _ _ | Bcast _ _ | Send _ _ _ | Recv _ _ _ => true
  | Print _ | Finalize => false
  end.

Inductive res (M A : Type) : Type :=
| Ok (a : A) (m : M) (tr : list event)
| Exited (code : Z) (m : M) (tr : list event)
| Blocked (tr : list event)
| Fault (tr : list event).

Arguments Ok {M A} a m tr.
Arguments Exited {M A} code m tr.
Arguments Blocked {M A} tr.
Arguments Fault {M A} tr.

Definition prog (M A : Type) : Type := M -> res M A.

Section Monad.
Context {M : Type}.

Definition ret {A} (a : A) : prog M A := fun m => Ok a m [].

Definition bind {A B} (p : prog M A) (k : A -> prog M B) : prog M B :=
  fun m =>
    match p m with
    | Ok a m1 tr1 =>
        match k a m1 with
        | Ok b m2 tr2 => Ok b m2 (tr1 ++ tr2)
        | Exited c m2 tr2 => Exited c m2 (tr1 ++ tr2)
        | Blocked tr2 => Blocked (tr1 ++ tr2)
        | Fault tr2 => Fault (tr1 ++ tr2)
        end
    | Exited c m1 tr1 => Exited c m1 tr1
    | Blocked tr1 => Blocked tr1
    | Fault tr1 => Fault tr1
    end.

Definition emit (e : event) : prog M unit := fun m => Ok tt m [e].
Definition exit {A} (code : Z) : prog M A := fun m => Exited code m [].
Definition fault {A} : prog M A := fun _ => Fault [].
Definition blocked {A} : prog M A := fun _ => Blocked [].
Definition get : prog M M := fun m => Ok m m [].
Definition put (m : M) : prog M unit := fun _ => Ok tt m [].

Definition or_fault {A} (o : option A) : prog M A :=
  match o with Some a => ret a | None => fault end.

Definition or_blocked {A} (o : option A) : prog M A :=
  match o with Some a => ret a | None => blocked end.

Fixpoint for_each (l : list nat) (body : nat -> prog M unit) : prog M unit :=
  match l with
  | [] => ret tt
  | i :: l' => bind (body i) (fun _ => for_each l' body)
  end.

(** [for (i = lo; i < hi; i++) body] *)
Definition for_range (lo hi : nat) (body : nat -> prog M unit) : prog M unit :=
  for_each (seq lo (hi - lo)) body.

(** A named array of the process memory. *)
Record array (T : Type) : Type := {
  rd : M -> list T;
  wr : list T -> M -> M
}.

Definition aget {T} (a : array T) (i : nat) : prog M T :=
  bind get (fun m => or_fault (load (rd a m) i)).

Definition aset {T} (a : array T) (i : nat) (v : T) : prog M unit :=
  bind get (fun m =>
  bind (or_fault (store (rd a m) i v)) (fun buf => put (wr a buf m))).

Definition ablit {T} (a : array T) (off : nat) (data : list T) : prog M unit :=
  bind get (fun m =>
  bind (or_fault (blit (rd a m) off data)) (fun buf => put (wr a buf m))).

(** The first [cnt] elements of an array, as the print loops and the
    send calls read them. *)
Definition aread {T} (a : array T) (cnt : nat) : prog M (list T) :=
  bind get (fun m =>
    if cnt <=? length (rd a m) then ret (firstn cnt (rd a m)) else fault).

End Monad.

Arguments array : clear implicits.

Declare Scope prog_scope.
Delimit Scope prog_scope with prog.
Notation "x <- p ;; k" := (bind p (fun x => k))
  (at level 61, p at next level, right associativity) : prog_scope.
Notation "p ;; k" := (bind p (fun _ => k))
  (at level 61, right associativity) : prog_scope.
Open Scope prog_scope.

Definition trace_of {M A} (r : res M A) : list event :=
  match r with
  | Ok _ _ tr | Exited _ _ tr | Blocked tr | Fault tr => tr
  end.

(** The events [tr] followed by those of [r]. *)
Definition prepend {M A} (tr : list event) (r : res M A) : res M A :=
  match r with
  | Ok a m t => Ok a m (tr ++ t)
  | Exited c m t => Exited c m (tr ++ t)
  | Blocked t => Blocked (tr ++ t)
  | Fault t => Fault (tr ++ t)
  end.

Definition no_fault {M A} (r : res M A) : bool :=
  match r with Fault _ => false | _ => true end.

(** Exit status of a process that ran to its end: [Some c] after [exit(c)],
    and after falling off the end of [main] (reported by [main]'s own
    [Ok] value). *)
Definition exit_status {M} (r : res M Z) : option Z :=
  match r with
  | Ok c _ _ => Some c
  | Exited c _ _ => Some c
  | Blocked _ | Fault _ => None
  end.

(* ------------------------------------------------------------------ *)
(** ** The MPI transport *)

Module MPI.

(** MPI_Scatter with equal send and receive counts: rank [i] is delivered
    the [cnt] elements of the root's send buffer that start at [i * cnt]. *)
Definition scatter_chunk {T} (cnt i : nat) (sendbuf : list T) : list T :=
  slice (i * cnt) cnt sendbuf.

(** The portions of a dataset for the ranks [0 .. P-1], when each is sent
    [length d / P] elements. *)
Definition partition {T} (d : list T) (P : nat) : list (list T) :=
  map (fun i => scatter_chunk (length d / P) i d) (seq 0 P).

Section Calls.
Context {M : Type}.

(** [MPI_Scatter(send, cnt, _, recv, cnt, _, root, MPI_COMM_WORLD)] on
    rank [me] of [np].  The send buffer only counts on the root, where
    [np * cnt] elements are read from it; on the other ranks the data
    comes from [at_root], the root's send buffer. *)
Definition MPI_Scatter {T} (at_root : list T) (np me : nat)
    (send : array M T) (cnt : nat) (recv : array M T) (root : nat)
  : prog M unit :=
  m <- get ;;
  let src := if me =? root then rd send m else at_root in
  emit (Scatter cnt root) ;;
  (if (me =? root) && negb (np * cnt <=? length src) then fault else ret tt) ;;
  ablit recv 0 (scatter_chunk cnt me src).

(** [MPI_Bcast(buf, cnt, _, root, MPI_COMM_WORLD)] on rank [me]. *)
Definition MPI_Bcast {T} (at_root : list T) (me : nat)
    (buf : array M T) (cnt : nat) (root : nat) : prog M unit :=
  emit (Bcast cnt root) ;;
  if me =? root
  then _ <- aread buf cnt ;; ret tt
  else if cnt <=? length at_root
       then ablit buf 0 (firstn cnt at_root)
       else fault.

(** [MPI_Send(buf, cnt, _, dest, tag, MPI_COMM_WORLD)]: [wrap] tells the
    element type of the message. *)
Definition MPI_Send {T} (wrap : list T -> payload)
    (buf : array M T) (cnt dest : nat) (tag : Z) : prog M unit :=
  data <- aread buf cnt ;;
  emit (Send (wrap data) dest tag).

(** [MPI_Recv(buf + off, cnt, _, src, tag, MPI_COMM_WORLD, &status)]:
    blocks until the message of [src] under [tag] is there ([inbox]
    tells which message a source sends under a tag, if any); a message
    longer than [cnt] or of another element type is an error. *)
Definition MPI_Recv {T} (inbox : nat -> Z -> option payload)
    (unwrap : payload -> option (list T))
    (buf : array M T) (off cnt src : nat) (tag : Z) : prog M unit :=
  p <- or_blocked (inbox src tag) ;;
  data <- or_fault (unwrap p) ;;
  if length data <=? cnt
  then emit (Recv p src tag) ;; ablit buf off data
  else fault.

End Calls.

Definition as_ints (p : payload) : option (list Z) :=
  match p with Ints l => Some l | _ => None end.

Definition as_floats (p : payload) : option (list C.float32) :=
  match p with Floats l => Some l | _ => None end.

(** A host name fills one row of a table of [char] rows. *)
Definition as_name (p : payload) : option (list string) :=
  match p with Chars s => Some [s] | _ => None end.

(** The first message to [dest] under [tag] among the events of a sender. *)
Fixpoint sent_to (dest : nat) (tag : Z) (tr : list event) : option payload :=
  match tr with
  | [] => None
  | Send p d t :: tr' =>
      if (d =? dest) && (t =? tag)%Z then Some p else sent_to dest tag tr'
  | _ :: tr' => sent_to dest tag tr'
  end.

End MPI.

(* ------------------------------------------------------------------ *)
(** ** matrix_add_v2.c *)

Module MatrixAdd.

Definition MAXPROC : nat := 8.
Definition NAMELEN : nat := 80.
Definition LENGTH : nat := 48.

Record mem : Type := {
  A : list Z;
  B : list Z;
  localA : list Z;
  localB : list Z;
  localSum : list Z;
  hostname : list string
}.

Definition arr_A : array mem Z :=
  {| rd := A;
     wr := fun l m => {| A := l; B := B m; localA := localA m; localB := localB m;
                         localSum := localSum m; hostname := hostname m |} |}.
Definition arr_B : array mem Z :=
  {| rd := B;
     wr := fun l m => {| A := A m; B := l; localA := localA m; localB := localB m;
                         localSum := localSum m; hostname := hostname m |} |}.
Definition arr_localA : array mem Z :=
  {| rd := localA;
     wr := fun l m => {| A := A m; B := B m; localA := l; localB := localB m;
                         localSum := localSum m; hostname := hostname m |} |}.
Definition arr_localB : array mem Z :=
  {| rd := localB;
     wr := fun l m => {| A := A m; B := B m; localA := localA m; localB := l;
                         localSum := localSum m; hostname := hostname m |} |}.
Definition arr_localSum : array mem Z :=
  {| rd := localSum;
     wr := fun l m => {| A := A m; B := B m; localA := localA m; localB := localB m;
                         localSum := l; hostname := hostname m |} |}.
Definition arr_hostname : array mem string :=
  {| rd := hostname;
     wr := fun l m => {| A := A m; B := B m; localA := localA m; localB := localB m;
                         localSum := localSum m; hostname := l |} |}.

(** The arrays of [main] before anything is written to them: declared
    sizes, arbitrary contents ([junk] for the [int] cells, [junkname] for
    the rows of [hostname]). *)
Definition uninitialised (junk : nat -> Z) (junkname : nat -> string) : mem :=
  {| A := map junk (seq 0 LENGTH);
     B := map junk (seq LENGTH LENGTH);
     localA := map junk (seq (2 * LENGTH) LENGTH);
     localB := map junk (seq (3 * LENGTH) LENGTH);
     localSum := map junk (seq (4 * LENGTH) LENGTH);
     hostname := map junkname (seq 0 MAXPROC) |}.

(** Declared sizes. *)
Definition wf (m : mem) : Prop :=
  length (A m) = LENGTH /\ length (B m) = LENGTH /\
  length (localA m) = LENGTH /\ length (localB m) = LENGTH /\
  length (localSum m) = LENGTH /\ length (hostname m) = MAXPROC.

(** What reaches a process from the others. *)
Record network : Type := {
  root_A : list Z;
  root_B : list Z;
  inbox : nat -> Z -> option payload
}.

Definition nametag : Z := 42.
Definition datatag : Z := 43.
Definition root : nat := 0.

(** Lines 46-53. *)
Definition init_arrays : prog mem unit :=
  for_range 0 LENGTH (fun i => aset arr_A i (C.int_of_nat i)) ;;
  for_range 0 LENGTH (fun i => aset arr_B i (C.int_add (Z.of_nat LENGTH) (C.int_of_nat i))).

(** The condition of lines 56 and 108. *)
Definition invalid_config (np : nat) : bool :=
  (MAXPROC <? np) || negb (LENGTH mod np =? 0).

(** Lines 71-73. *)
Definition root_add (np : nat) : prog mem unit :=
  for_range 0 (LENGTH / np) (fun i =>
    a <- aget arr_localA i ;;
    b <- aget arr_localB i ;;
    aset arr_localSum i (C.int_add a b)).

(** Lines 120-122. *)
Definition worker_add (np : nat) : prog mem unit :=
  for_range 0 (LENGTH / np) (fun i =>
    a <- aget arr_localA i ;;
    b <- aget arr_localB i ;;
    aset arr_localSum i (C.int_add a b)).

(** Lines 76-89 and 125-138. *)
Definition print_local (np me : nat) (myname : string) : prog mem unit :=
  a <- aread arr_localA (LENGTH / np) ;;
  b <- aread arr_localB (LENGTH / np) ;;
  s <- aread arr_localSum (LENGTH / np) ;;
  emit (Print (LocalData me myname a b s)).

(** Lines 92-101. *)
Definition collect (net : network) (np : nat) : prog mem unit :=
  for_range 1 np (fun i =>
    MPI.MPI_Recv (inbox net) MPI.as_name arr_hostname i 1 i nametag ;;
    MPI.MPI_Recv (inbox net) MPI.as_ints arr_localSum 0 (LENGTH / np) i datatag ;;
    h <- aget arr_hostname i ;;
    s <- aread arr_localSum (LENGTH / np) ;;
    emit (Print (RemoteSum i h s))).

Definition main (net : network) (np me : nat) (myname : string) : prog mem Z :=
  (if me =? 0 then
     init_arrays ;;
     (if invalid_config np
      then emit (Print (Usage LENGTH MAXPROC)) ;; emit Finalize ;; exit 0
      else ret tt) ;;
     emit (Print (Distributing me myname np)) ;;
     MPI.MPI_Scatter (root_A net) np me arr_A (LENGTH / np) arr_localA root ;;
     MPI.MPI_Scatter (root_B net) np me arr_B (LENGTH / np) arr_localB root ;;
     root_add np ;;
     print_local np me myname ;;
     collect net np ;;
     emit (Print Ready)
   else
     (if invalid_config np
      then emit Finalize ;; exit 0
      else ret tt) ;;
     emit (Print (Receiving me myname)) ;;
     MPI.MPI_Scatter (root_A net) np me arr_A (LENGTH / np) arr_localA root ;;
     MPI.MPI_Scatter (root_B net) np me arr_B (LENGTH / np) arr_localB root ;;
     worker_add np ;;
     print_local np me myname ;;
     emit (Send (Chars myname) 0 nametag) ;;
     MPI.MPI_Send Ints arr_localSum (LENGTH / np) 0 datatag ;;
     emit (Print (SentBack me myname))) ;;
  emit Finalize ;;
  exit 0.

(** The elementwise sum of the first [c] cells of two arrays, the pure
    function the addition loops are compared with. *)
Definition add_spec (la lb : list Z) (c : nat) : list Z :=
  map (fun i => C.int_add (nth i la 0%Z) (nth i lb 0%Z)) (seq 0 c).

(** The loop that rank [me] runs on its local arrays. *)
Definition local_compute (np me : nat) : prog mem unit :=
  if me =? 0 then root_add np else worker_add np.

(** The local result of a process: the cells of [localSum] that the
    print loop and the send call read. *)
Definition local_result (np : nat) (r : res mem unit) : option (list Z) :=
  match r with
  | Ok _ m _ => Some (firstn (LENGTH / np) (localSum m))
  | _ => None
  end.

(** *** The group of [np] processes *)

(** Host name and uninitialised memory of every rank. *)
Record setup : Type := {
  hosts : nat -> string;
  junk : nat -> nat -> Z;
  junkname : nat -> nat -> string
}.

Definition start (s : setup) (me : nat) : mem :=
  uninitialised (junk s me) (junkname s me).

(** The root's arrays [A] and [B] as its scatter calls read them. *)
Definition root_arrays (s : setup) : list Z * list Z :=
  match init_arrays (start s 0) with
  | Ok _ m _ => (A m, B m)
  | _ => ([], [])
  end.

(** A worker receives nothing point-to-point. *)
Definition worker_net (s : setup) : network :=
  {| root_A := fst (root_arrays s);
     root_B := snd (root_arrays s);
     inbox := fun _ _ => None |}.

Definition run_worker (s : setup) (np me : nat) : res mem Z :=
  main (worker_net s) np me (hosts s me) (start s me).

(** The root is delivered what each worker sends to rank 0. *)
Definition root_net (s : setup) (np : nat) : network :=
  {| root_A := fst (root_arrays s);
     root_B := snd (root_arrays s);
     inbox := fun src tag =>
       if (1 <=? src) && (src <? np)
       then MPI.sent_to 0 tag (trace_of (run_worker s np src))
       else None |}.

Definition run_root (s : setup) (np : nat) : res mem Z :=
  main (root_net s np) np 0 (hosts s 0) (start s 0).

Definition run (s : setup) (np me : nat) : res mem Z :=
  if me =? 0 then run_root s np else run_worker s np me.

(** *** The coordinator between two rounds of its collection loop *)

(** Lines 93-100: one round of the loop of lines 92-101, for rank [i]. *)
Definition collect_round (net : network) (np i : nat) : prog mem unit :=
  MPI.MPI_Recv (inbox net) MPI.as_name arr_hostname i 1 i nametag ;;
  MPI.MPI_Recv (inbox net) MPI.as_ints arr_localSum 0 (LENGTH / np) i datatag ;;
  h <- aget arr_hostname i ;;
  s <- aread arr_localSum (LENGTH / np) ;;
  emit (Print (RemoteSum i h s)).

(** Lines 46-89: the branch of rank 0 up to the collection loop. *)
Definition root_before_collect (net : network) (np : nat) (myname : string)
  : prog mem unit :=
  init_arrays ;;
  (if invalid_config np
   then emit (Print (Usage LENGTH MAXPROC)) ;; emit Finalize ;; exit 0
   else ret tt) ;;
  emit (Print (Distributing 0 myname np)) ;;
  MPI.MPI_Scatter (root_A net) np 0 arr_A (LENGTH / np) arr_localA root ;;
  MPI.MPI_Scatter (root_B net) np 0 arr_B (LENGTH / np) arr_localB root ;;
  root_add np ;;
  print_local np 0 myname.

(** Rank 0 up to the end of round [k] of the loop; [k = 0] is the entry
    of the loop. *)
Definition root_upto (net : network) (np : nat) (myname : string) (k : nat)
  : prog mem unit :=
  root_before_collect net np myname ;;
  for_range 1 (S k) (collect_round net np).

(** Rank 0 from the end of round [k] on: the rounds that are left, and
    lines 103 and 149-150. *)
Definition root_from (net : network) (np k : nat) : prog mem Z :=
  for_range (S k) np (collect_round net np) ;;
  emit (Print Ready) ;;
  emit Finalize ;;
  exit 0.

(** *** Observations *)

(** The local arrays a process reports (lines 76-89, 125-138): its
    portions of [A] and [B] and their sums. *)
Fixpoint local_data (tr : list event) : option (list Z * list Z * list Z) :=
  match tr with
  | [] => None
  | Print (LocalData _ _ a b sum) :: _ => Some (a, b, sum)
  | _ :: tr' => local_data tr'
  end.

(** The sums of rank [me] in a group of [np]. *)
Definition sums_of (s : setup) (np me : nat) : list Z :=
  match local_data (trace_of (run s np me)) with
  | Some (_, _, sum) => sum
  | None => []
  end.

(** The sum lines of a console, in the order they are printed, each with
    the rank it is attributed to. *)
Fixpoint reported (tr : list event) : list (nat * list Z) :=
  match tr with
  | [] => []
  | Print (LocalData me _ _ _ sum) :: tr' => (me, sum) :: reported tr'
  | Print (RemoteSum src _ sum) :: tr' => (src, sum) :: reported tr'
  | _ :: tr' => reported tr'
  end.

Definition receives (tr : list event) : list event :=
  filter (fun e => match e with Recv _ _ _ => true | _ => false end) tr.

(** The lines the coordinator prints for the other ranks (line 96): the
    rank, the host name and the sums it attributes to it. *)
Fixpoint remote_lines (tr : list event) : list (nat * string * list Z) :=
  match tr with
  | [] => []
  | Print (RemoteSum src host sum) :: tr' => (src, host, sum) :: remote_lines tr'
  | _ :: tr' => remote_lines tr'
  end.

(** What a rank sends to the coordinator, in the order of the calls. *)
Definition sends (tr : list event) : list event :=
  filter (fun e => match e with Send _ _ _ => true | _ => false end) tr.

Definition final_mem (r : res mem Z) : option mem :=
  match r with
  | Ok _ m _ | Exited _ m _ => Some m
  | Blocked _ | Fault _ => None
  end.

(** The first [LENGTH / np] cells of [localA] and of [localB] at the end of
    the run of rank [me]: what the two scatters left there. *)
Definition portions_held (s : setup) (np me : nat) : option (list Z * list Z) :=
  option_map (fun m => (firstn (LENGTH / np) (localA m),
                        firstn (LENGTH / np) (localB m)))
             (final_mem (run s np me)).

(** The sums of all ranks, one rank after the other. *)
Definition all_sums (s : setup) (np : nat) : list Z :=
  concat (map (sums_of s np) (seq 0 np)).

(** A concrete group: hosts ["0"], ["1"], ..., memory cells holding -1. *)
Definition demo : setup :=
  {| hosts := fun i => String (Ascii.ascii_of_nat (48 + i)) EmptyString;
     junk := fun _ _ => (-1)%Z;
     junkname := fun _ _ => EmptyString |}.

End MatrixAdd.

(* ------------------------------------------------------------------ *)
(** ** scatter_matrix_mult.c *)

Module MatMul.

Definition N : nat := 16.
Definition NAMELEN : nat := 80.

(** Two-dimensional arrays are row-major: [a[i][j]] is cell [i * N + j]. *)
Record mem : Type := {
  hostname : list string;          (* char hostname[4][NAMELEN] *)
  matA : list C.float32;           (* float matA[N][N] *)
  matX : list C.float32;           (* float matX[N] *)
  result : list C.float32;         (* float result[N] *)
  localA : list C.float32;         (* float localA[N/4][N] *)
  localResult : list C.float32     (* float localResult[N/4] *)
}.

Definition hostname_slots : nat := 4.
Definition localA_rows : nat := N / 4.
Definition localA_cells : nat := localA_rows * N.
Definition localResult_cells : nat := N / 4.

Definition arr_matA : array mem C.float32 :=
  {| rd := matA;
     wr := fun l m => {| hostname := hostname m; matA := l; matX := matX m;
                         result := result m; localA := localA m;
                         localResult := localResult m |} |}.
Definition arr_matX : array mem C.float32 :=
  {| rd := matX;
     wr := fun l m => {| hostname := hostname m; matA := matA m; matX := l;
                         result := result m; localA := localA m;
                         localResult := localResult m |} |}.
Definition arr_result : array mem C.float32 :=
  {| rd := result;
     wr := fun l m => {| hostname := hostname m; matA := matA m; matX := matX m;
                         result := l; localA := localA m;
                         localResult := localResult m |} |}.
Definition arr_localA : array mem C.float32 :=
  {| rd := localA;
     wr := fun l m => {| hostname := hostname m; matA := matA m; matX := matX m;
                         result := result m; localA := l;
                         localResult := localResult m |} |}.
Definition arr_localResult : array mem C.float32 :=
  {| rd := localResult;
     wr := fun l m => {| hostname := hostname m; matA := matA m; matX := matX m;
                         result := result m; localA := localA m;
                         localResult := l |} |}.

(** The arrays of [main] before anything is written to them. *)
Definition uninitialised (junk : nat -> C.float32) (junkname : nat -> string) : mem :=
  {| hostname := map junkname (seq 0 hostname_slots);
     matA := map junk (seq 0 (N * N));
     matX := map junk (seq (N * N) N);
     result := map junk (seq (N * N + N) N);
     localA := map junk (seq (N * N + 2 * N) localA_cells);
     localResult := map junk (seq (N * N + 2 * N + localA_cells) localResult_cells) |}.

(** Declared sizes. *)
Definition wf (m : mem) : Prop :=
  length (hostname m) = hostname_slots /\
  length (matA m) = N * N /\ length (matX m) = N /\
  length (result m) = N /\
  length (localA m) = localA_cells /\
  length (localResult m) = localResult_cells.

Record network : Type := {
  root_matA : list C.float32;
  root_matX : list C.float32;
  inbox : nat -> Z -> option payload
}.

Definition resulttag : Z := 45.
Definition root : nat := 0.

(** Line 40. *)
Definition rows_per_proc (np : nat) : nat := N / np.

(** Lines 46-51. *)
Definition init_matrix : prog mem unit :=
  for_range 0 N (fun i =>
    for_range 0 N (fun j =>
      aset arr_matA (i * N + j)
        (C.f32_of_Z (C.int_add (C.int_mul (C.int_of_nat i) (Z.of_nat N))
                               (C.int_of_nat j)))) ;;
    aset arr_matX i (C.f32_of_Z (C.int_add (C.int_of_nat i) 1))).

(** Lines 77-82. *)
Definition root_multiply (rows : nat) : prog mem unit :=
  for_range 0 rows (fun i =>
    aset arr_localResult i C.f32_zero ;;
    for_range 0 N (fun j =>
      r <- aget arr_localResult i ;;
      a <- aget arr_localA (i * N + j) ;;
      x <- aget arr_matX j ;;
      aset arr_localResult i (C.f32_add r (C.f32_mul a x)))).

(** Lines 112-117. *)
Definition worker_multiply (rows : nat) : prog mem unit :=
  for_range 0 rows (fun i =>
    aset arr_localResult i C.f32_zero ;;
    for_range 0 N (fun j =>
      r <- aget arr_localResult i ;;
      a <- aget arr_localA (i * N + j) ;;
      x <- aget arr_matX j ;;
      aset arr_localResult i (C.f32_add r (C.f32_mul a x)))).

(** Lines 85-87. *)
Definition copy_own (rows : nat) : prog mem unit :=
  for_range 0 rows (fun i =>
    v <- aget arr_localResult i ;;
    aset arr_result i v).

(** Lines 90-93. *)
Definition collect (net : network) (np rows : nat) : prog mem unit :=
  for_range 1 np (fun i =>
    MPI.MPI_Recv (inbox net) MPI.as_floats arr_result (i * rows) rows i resulttag).

(** Lines 69-82: the scatter, the broadcast and the multiplication on
    the root. *)
Definition root_scatter_compute (net : network) (np : nat) : prog mem unit :=
  MPI.MPI_Scatter (root_matA net) np 0 arr_matA (rows_per_proc np * N)
                  arr_localA root ;;
  MPI.MPI_Bcast (root_matX net) 0 arr_matX N root ;;
  root_multiply (rows_per_proc np).

(** Lines 104-117: the same three steps on another rank. *)
Definition worker_scatter_compute (net : network) (np me : nat) : prog mem unit :=
  MPI.MPI_Scatter (root_matA net) np me arr_matA (rows_per_proc np * N)
                  arr_localA root ;;
  MPI.MPI_Bcast (root_matX net) me arr_matX N root ;;
  worker_multiply (rows_per_proc np).

Definition main (net : network) (np me : nat) (myname : string) : prog mem Z :=
  let rows_per_proc := rows_per_proc np in
  (if me =? 0 then
     emit (Print (NumProcs np)) ;;
     init_matrix ;;
     a <- aread arr_matA (N * N) ;;
     emit (Print (MatrixA a)) ;;
     x <- aread arr_matX N ;;
     emit (Print (VectorX x)) ;;
     root_scatter_compute net np ;;
     copy_own rows_per_proc ;;
     collect net np rows_per_proc ;;
     r <- aread arr_result N ;;
     emit (Print (FinalVector r))
   else
     worker_scatter_compute net np me ;;
     r <- aread arr_localResult rows_per_proc ;;
     emit (Print (Computed me myname r)) ;;
     MPI.MPI_Send Floats arr_localResult rows_per_proc 0 resulttag) ;;
  emit Finalize ;;
  ret 0%Z.

(** The scatter and compute phases of rank [me]. *)
Definition scatter_compute (net : network) (np me : nat) : prog mem unit :=
  if me =? 0 then root_scatter_compute net np
  else worker_scatter_compute net np me.

(** The send buffer of the scatter as rank [me] is served from it: its own
    [matA] on the root, the root's on the other ranks. *)
Definition scatter_source (net : network) (me : nat) (m : mem) : list C.float32 :=
  if me =? root then matA m else root_matA net.

(** Row [i] of [la] times [x], accumulated from 0.0 over the first [n]
    columns in the order of the inner loop. *)
Definition dot_upto (la x : list C.float32) (i n : nat) : C.float32 :=
  fold_left
    (fun acc j =>
       C.f32_add acc (C.f32_mul (nth (i * N + j) la C.f32_zero) (nth j x C.f32_zero)))
    (seq 0 n) C.f32_zero.

(** One scalar per row for the first [rows] rows, the pure function the
    multiplication loops are compared with. *)
Definition mul_spec (la x : list C.float32) (rows : nat) : list C.float32 :=
  map (fun i => dot_upto la x i N) (seq 0 rows).

Definition local_compute (np me : nat) : prog mem unit :=
  if me =? 0 then root_multiply (rows_per_proc np)
  else worker_multiply (rows_per_proc np).

Definition local_result (np : nat) (r : res mem unit) : option (list C.float32) :=
  match r with
  | Ok _ m _ => Some (firstn (rows_per_proc np) (localResult m))
  | _ => None
  end.

(** *** The group of [np] processes *)

Record setup : Type := {
  hosts : nat -> string;
  junk : nat -> nat -> C.float32;
  junkname : nat -> nat -> string
}.

Definition start (s : setup) (me : nat) : mem :=
  uninitialised (junk s me) (junkname s me).

(** The root's [matA] and [matX] as its collective calls read them. *)
Definition root_arrays (s : setup) : list C.float32 * list C.float32 :=
  match init_matrix (start s 0) with
  | Ok _ m _ => (matA m, matX m)
  | _ => ([], [])
  end.

Definition worker_net (s : setup) : network :=
  {| root_matA := fst (root_arrays s);
     root_matX := snd (root_arrays s);
     inbox := fun _ _ => None |}.

Definition run_worker (s : setup) (np me : nat) : res mem Z :=
  main (worker_net s) np me (hosts s me) (start s me).

Definition root_net (s : setup) (np : nat) : network :=
  {| root_matA := fst (root_arrays s);
     root_matX := snd (root_arrays s);
     inbox := fun src tag =>
       if (1 <=? src) && (src <? np)
       then MPI.sent_to 0 tag (trace_of (run_worker s np src))
       else None |}.

Definition run_root (s : setup) (np : nat) : res mem Z :=
  main (root_net s np) np 0 (hosts s 0) (start s 0).

Definition run (s : setup) (np me : nat) : res mem Z :=
  if me =? 0 then run_root s np else run_worker s np me.

(** The block of rank [i]: the rows the scatter delivers to it, lying
    over its uninitialised [localA], times the root's vector. *)
Definition block (s : setup) (np i : nat) : list C.float32 :=
  mul_spec (MPI.scatter_chunk (rows_per_proc np * N) i (fst (root_arrays s))
              ++ skipn (rows_per_proc np * N) (localA (start s i)))
           (snd (root_arrays s)) (rows_per_proc np).

(** The blocks of the ranks below [k], in rank order. *)
Definition blocks (s : setup) (np k : nat) : list C.float32 :=
  concat (map (block s np) (seq 0 k)).

(** *** Observations *)

Definition receives (tr : list event) : list event :=
  filter (fun e => match e with Recv _ _ _ => true | _ => false end) tr.

Definition final_mem (r : res mem Z) : option mem :=
  match r with
  | Ok _ m _ | Exited _ m _ => Some m
  | Blocked _ | Fault _ => None
  end.

(** The vector [result] at the end of a run. *)
Definition final_result (r : res mem Z) : option (list C.float32) :=
  option_map result (final_mem r).

(** The first [rows_per_proc np] cells of [localResult] at the end of the
    run of rank [me]. *)
Definition block_of (s : setup) (np me : nat) : option (list C.float32) :=
  option_map (fun m => firstn (rows_per_proc np) (localResult m))
             (final_mem (run s np me)).

(** The first [rows_per_proc np * N] cells of [localA] at the end of the
    run of rank [me]: the rows the scatter left there. *)
Definition rows_held (s : setup) (np me : nat) : option (list C.float32) :=
  option_map (fun m => firstn (rows_per_proc np * N) (localA m))
             (final_mem (run s np me)).

(** A concrete group: hosts ["0"], ["1"], ..., memory cells holding NaN. *)
Definition demo : setup :=
  {| hosts := fun i => String (Ascii.ascii_of_nat (48 + i)) EmptyString;
     junk := fun _ _ => S754_nan;
     junkname := fun _ _ => EmptyString |}.

End MatMul.

(* ------------------------------------------------------------------ *)
(** ** Further observations on traces and results *)

(** The collective calls of a trace. *)
Definition collectives (tr : list event) : list event :=
  filter (fun e => match e with Scatter _ _ | Bcast _ _ => true | _ => false end) tr.

(** The point-to-point calls of a trace. *)
Definition sent (tr : list event) : list event :=
  filter (fun e => match e with Send _ _ _ => true | _ => false end) tr.

Definition received (tr : list event) : list event :=
  filter (fun e => match e with Recv _ _ _ => true | _ => false end) tr.

(** The calls of MPI_Finalize in a trace. *)
Definition finalizes (tr : list event) : list event :=
  filter (fun e => match e with Finalize => true | _ => false end) tr.

(** Cell [r] of the product of [A[i][j] = i * N + j] and [X[j] = j + 1],
    as an integer. *)
Definition exact_product (r : nat) : Z :=
  fold_left Z.add
    (map (fun j => ((Z.of_nat r * Z.of_nat MatMul.N + Z.of_nat j) * (Z.of_nat j + 1))%Z)
         (seq 0 MatMul.N))
    0%Z.

(* ------------------------------------------------------------------ *)
(** ** Buffers and loops *)

Section BufferFacts.
Context {T : Type}.
Implicit Types (buf pre post : list T).

Lemma load_nth buf i d : i < length buf -> load buf i = Some (nth i buf d).
Proof. intros H. unfold load. now apply nth_error_nth'. Qed.

(** Writing cell [length pre]: one more cell of a prefix is settled. *)
Lemma store_next pre buf v :
  length pre < length buf ->
  store (pre ++ skipn (length pre) buf) (length pre) v
  = Some ((pre ++ [v]) ++ skipn (S (length pre)) buf).
Proof.
  intros H. unfold store.
  rewrite length_app, length_skipn.
  replace (length pre <? length pre + (length buf - length pre)) with true
    by (symmetry; apply Nat.ltb_lt; lia).
  rewrite firstn_app, Nat.sub_diag, firstn_all, firstn_O, app_nil_r.
  rewrite skipn_app, (skipn_all2 pre) by lia.
  replace (S (length pre) - length pre) with 1 by lia.
  rewrite skipn_skipn, <- app_assoc. reflexivity.
Qed.

(** Overwriting the cell that follows a prefix. *)
Lemma store_here pre post v w :
  store (pre ++ v :: post) (length pre) w = Some (pre ++ w :: post).
Proof.
  unfold store. rewrite length_app. cbn [length].
  replace (length pre <? length pre + S (length post)) with true
    by (symmetry; apply Nat.ltb_lt; lia).
  rewrite firstn_app, Nat.sub_diag, firstn_all, firstn_O, app_nil_r.
  rewrite skipn_app, (skipn_all2 pre) by lia.
  replace (S (length pre) - length pre) with 1 by lia. reflexivity.
Qed.

Lemma nth_here pre post v d : nth (length pre) (pre ++ v :: post) d = v.
Proof. rewrite app_nth2, Nat.sub_diag by lia. reflexivity. Qed.

Lemma blit_fits buf off data :
  off + length data <= length buf ->
  blit buf off data = Some (firstn off buf ++ data ++ skipn (off + length data) buf).
Proof. intros H. unfold blit. now rewrite (proj2 (Nat.leb_le _ _) H). Qed.

Lemma blit_overflow buf off data :
  length buf < off + length data -> blit buf off data = None.
Proof. intros H. unfold blit. now rewrite (proj2 (Nat.leb_gt _ _) H). Qed.

(** Copying right after a settled prefix: the prefix grows by the data. *)
Lemma blit_next pre buf data :
  length pre + length data <= length buf ->
  blit (pre ++ skipn (length pre) buf) (length pre) data
  = Some ((pre ++ data) ++ skipn (length pre + length data) buf).
Proof.
  intros H. unfold blit. rewrite length_app, length_skipn.
  replace (length pre + length data <=? length pre + (length buf - length pre))
    with true by (symmetry; apply Nat.leb_le; lia).
  rewrite firstn_app, Nat.sub_diag, firstn_all, firstn_O, app_nil_r.
  rewrite skipn_app, (skipn_all2 pre) by lia.
  replace (length pre + length data - length pre) with (length data) by lia.
  rewrite skipn_skipn, <- app_assoc.
  now replace (length data + length pre) with (length pre + length data) by lia.
Qed.

Lemma blit_next_cells pre buf data :
  length pre + length data <= length buf ->
  firstn (length pre) (pre ++ skipn (length pre) buf) ++ data
    ++ skipn (length pre + length data) (pre ++ skipn (length pre) buf)
  = (pre ++ data) ++ skipn (length pre + length data) buf.
Proof.
  intros H. pose proof (blit_next pre buf data H) as Hnext.
  rewrite blit_fits in Hnext by (rewrite length_app, length_skipn; lia).
  congruence.
Qed.

Lemma firstn_succ buf k d :
  k < length buf -> firstn (S k) buf = firstn k buf ++ [nth k buf d].
Proof.
  revert k. induction buf as [|x buf IH]; intros k Hk; [cbn in Hk; lia|].
  destruct k as [|k]; [reflexivity|].
  cbn [firstn nth app]. f_equal. apply IH. cbn in Hk. lia.
Qed.

Lemma concat_singletons {U} (f : U -> T) (l : list U) :
  concat (map (fun u => [f u]) l) = map f l.
Proof. induction l as [|u l IH]; [reflexivity|]. cbn. now rewrite IH. Qed.

Lemma slice_length off cnt buf :
  off + cnt <= length buf -> length (slice off cnt buf) = cnt.
Proof.
  intros H. unfold slice. apply firstn_length_le. rewrite length_skipn. lia.
Qed.

Lemma nth_slice off cnt buf j d :
  j < cnt -> nth j (slice off cnt buf) d = nth (off + j) buf d.
Proof.
  intros H. unfold slice. rewrite nth_firstn.
  replace (j <? cnt) with true by (symmetry; now apply Nat.ltb_lt).
  now rewrite nth_skipn.
Qed.

End BufferFacts.

Section ChunkFacts.
Context {T : Type}.

Lemma chunk_succ c i (d : list T) :
  MPI.scatter_chunk c (S i) d = MPI.scatter_chunk c i (skipn c d).
Proof.
  unfold MPI.scatter_chunk, slice. rewrite skipn_skipn.
  now replace (S i * c) with (i * c + c) by lia.
Qed.

(** The chunks of [n] ranks, one after the other, give back a buffer of
    [n * c] elements. *)
Lemma concat_chunks c n :
  forall d : list T,
    length d = n * c ->
    concat (map (fun i => MPI.scatter_chunk c i d) (seq 0 n)) = d.
Proof.
  induction n as [|n IH]; intros d Hd.
  - destruct d; [reflexivity | discriminate].
  - cbn [seq map concat]. rewrite <- seq_shift, map_map.
    rewrite (map_ext _ (fun i => MPI.scatter_chunk c i (skipn c d)))
      by (intros i; apply chunk_succ).
    rewrite IH by (rewrite length_skipn; lia).
    unfold MPI.scatter_chunk, slice. cbn [Nat.mul skipn].
    apply firstn_skipn.
Qed.

End ChunkFacts.

Section LoopFacts.
Context {M : Type}.

Lemma bind_Ok {A B} (p : prog M A) (k : A -> prog M B) m a m1 :
  p m = Ok a m1 [] -> bind p k m = k a m1.
Proof. intros H. unfold bind. rewrite H. now destruct (k a m1). Qed.

Lemma bind_step {A B} (p : prog M A) (k : A -> prog M B) m a m1 tr1 :
  p m = Ok a m1 tr1 -> bind p k m = prepend tr1 (k a m1).
Proof. intros H. unfold bind. now rewrite H. Qed.

Lemma bind_Fault {A B} (p : prog M A) (k : A -> prog M B) m tr :
  p m = Fault tr -> bind p k m = Fault tr.
Proof. intros H. unfold bind. now rewrite H. Qed.

(** A silent loop whose state after [k] rounds is [st k]. *)
Lemma for_each_seq (st : nat -> M) (body : nat -> prog M unit) n :
  forall lo,
    (forall k, k < n -> body (lo + k) (st k) = Ok tt (st (S k)) []) ->
    for_each (seq lo n) body (st 0) = Ok tt (st n) [].
Proof.
  revert st. induction n as [|n IH]; intros st lo Hstep; [reflexivity|].
  simpl. rewrite (@bind_Ok _ _ _ _ _ tt (st 1)).
  - apply (IH (fun k => st (S k)) (S lo)). intros k Hk.
    replace (S lo + k) with (lo + S k) by lia. apply Hstep. lia.
  - rewrite <- (Nat.add_0_r lo) at 1. apply Hstep. lia.
Qed.

Lemma bind_assoc {A B D} (p : prog M A) (k : A -> prog M B) (h : B -> prog M D) m :
  bind (bind p k) h m = bind p (fun a => bind (k a) h) m.
Proof.
  unfold bind. destruct (p m) as [a m1 tr1| | |]; try reflexivity.
  destruct (k a m1) as [b m2 tr2| | |]; try reflexivity.
  destruct (h b m2); now rewrite app_assoc.
Qed.

Lemma bind_ext {A B} (p : prog M A) (k k' : A -> prog M B) m :
  (forall a m1, k a m1 = k' a m1) -> bind p k m = bind p k' m.
Proof.
  intros H. unfold bind. destruct (p m) as [a m1 tr1| | |]; try reflexivity.
  now rewrite H.
Qed.

Lemma bind_ret_l {A B} (a : A) (k : A -> prog M B) m : bind (ret a) k m = k a m.
Proof. unfold bind, ret. now destruct (k a m). Qed.

Lemma for_each_app (l1 l2 : list nat) (body : nat -> prog M unit) m :
  for_each (l1 ++ l2) body m
  = bind (for_each l1 body) (fun _ => for_each l2 body) m.
Proof.
  revert m. induction l1 as [|i l1 IH]; intros m; cbn [app for_each].
  - now rewrite bind_ret_l.
  - rewrite bind_assoc. apply bind_ext. intros _ m1. apply IH.
Qed.

(** A loop whose state after [k] rounds is [st k] and whose round [k]
    emits the events [ev k]. *)
Lemma for_each_seq_events (st : nat -> M) (ev : nat -> list event)
    (body : nat -> prog M unit) n :
  forall lo,
    (forall k, k < n -> body (lo + k) (st k) = Ok tt (st (S k)) (ev k)) ->
    for_each (seq lo n) body (st 0) = Ok tt (st n) (concat (map ev (seq 0 n))).
Proof.
  revert st ev. induction n as [|n IH]; intros st ev lo Hstep; [reflexivity|].
  cbn [seq for_each map concat].
  erewrite bind_step
    by (rewrite <- (Nat.add_0_r lo) at 1; apply Hstep; lia).
  rewrite (IH (fun k => st (S k)) (fun k => ev (S k)) (S lo)).
  - cbn [prepend]. now rewrite <- seq_shift, map_map.
  - intros k Hk. replace (S lo + k) with (lo + S k) by lia. apply Hstep. lia.
Qed.

Lemma for_range_steps (st : nat -> M) (body : nat -> prog M unit) n :
  (forall k, k < n -> body k (st k) = Ok tt (st (S k)) []) ->
  for_range 0 n body (st 0) = Ok tt (st n) [].
Proof.
  intros H. unfold for_range. rewrite Nat.sub_0_r. now apply for_each_seq.
Qed.

Lemma aget_ok {T} (a : array M T) i m d :
  i < length (rd a m) -> aget a i m = Ok (nth i (rd a m) d) m [].
Proof.
  intros H. unfold aget, bind, get, or_fault. now rewrite (load_nth _ d H).
Qed.

Lemma aset_ok {T} (a : array M T) i v m buf :
  store (rd a m) i v = Some buf -> aset a i v m = Ok tt (wr a buf m) [].
Proof. intros H. unfold aset, bind, get, or_fault, put. now rewrite H. Qed.

Lemma ablit_ok {T} (a : array M T) off data m :
  off + length data <= length (rd a m) ->
  ablit a off data m
  = Ok tt (wr a (firstn off (rd a m) ++ data ++ skipn (off + length data) (rd a m)) m) [].
Proof. intros H. unfold ablit, bind, get, or_fault, put. now rewrite blit_fits. Qed.

Lemma ablit_overflow {T} (a : array M T) off data m :
  length (rd a m) < off + length data -> ablit a off data m = Fault [].
Proof. intros H. unfold ablit, bind, get, or_fault, put. now rewrite blit_overflow. Qed.

Lemma aread_ok {T} (a : array M T) cnt m :
  cnt <= length (rd a m) -> aread a cnt m = Ok (firstn cnt (rd a m)) m [].
Proof.
  intros H. unfold aread, bind, get. now rewrite (proj2 (Nat.leb_le _ _) H).
Qed.

(** The scatter call when the chunk fits the receive buffer. *)
Lemma scatter_ok {T} (at_root : list T) np me (send recv : array M T) cnt root m :
  let src := if me =? root then rd send m else at_root in
  (me = root -> np * cnt <= length src) ->
  length (MPI.scatter_chunk cnt me src) <= length (rd recv m) ->
  MPI.MPI_Scatter at_root np me send cnt recv root m
  = Ok tt (wr recv (MPI.scatter_chunk cnt me src
                      ++ skipn (length (MPI.scatter_chunk cnt me src)) (rd recv m)) m)
       [Scatter cnt root].
Proof.
  intros src Hroot Hfit. unfold MPI.MPI_Scatter, bind at 1, get. fold src.
  assert (Hguard : (me =? root) && negb (np * cnt <=? length src) = false).
  { destruct (Nat.eqb_spec me root) as [E|]; [|reflexivity].
    cbn. now rewrite (proj2 (Nat.leb_le _ _) (Hroot E)). }
  rewrite Hguard. unfold bind at 1, emit. unfold bind at 1, ret.
  rewrite ablit_ok by (cbn; lia). reflexivity.
Qed.

(** The scatter call when the chunk is larger than the receive buffer. *)
Lemma scatter_overflow {T} (at_root : list T) np me (send recv : array M T) cnt root m :
  let src := if me =? root then rd send m else at_root in
  (me = root -> np * cnt <= length src) ->
  length (rd recv m) < length (MPI.scatter_chunk cnt me src) ->
  MPI.MPI_Scatter at_root np me send cnt recv root m = Fault [Scatter cnt root].
Proof.
  intros src Hroot Hover. unfold MPI.MPI_Scatter, bind at 1, get. fold src.
  assert (Hguard : (me =? root) && negb (np * cnt <=? length src) = false).
  { destruct (Nat.eqb_spec me root) as [E|]; [|reflexivity].
    cbn. now rewrite (proj2 (Nat.leb_le _ _) (Hroot E)). }
  rewrite Hguard. unfold bind at 1, emit. unfold bind at 1, ret.
  rewrite ablit_overflow by (cbn; lia). reflexivity.
Qed.

(** The broadcast call when [cnt] elements fit on both sides. *)
Lemma bcast_ok {T} (at_root : list T) me (buf : array M T) cnt root m :
  cnt <= length (rd buf m) ->
  cnt <= length at_root ->
  MPI.MPI_Bcast at_root me buf cnt root m
  = Ok tt (if me =? root then m
           else wr buf (firstn cnt at_root ++ skipn cnt (rd buf m)) m)
       [Bcast cnt root].
Proof.
  intros Hbuf Hroot. unfold MPI.MPI_Bcast, bind at 1, emit.
  destruct (me =? root).
  - unfold bind. now rewrite aread_ok.
  - rewrite (proj2 (Nat.leb_le _ _) Hroot).
    rewrite ablit_ok by (rewrite firstn_length_le; cbn; lia).
    rewrite firstn_length_le by lia. reflexivity.
Qed.

(** The receive call when the awaited message is there and fits. *)
Lemma recv_ok {T} (inbox : nat -> Z -> option payload)
    (unwrap : payload -> option (list T)) (buf : array M T)
    off cnt src tag m p data :
  inbox src tag = Some p ->
  unwrap p = Some data ->
  length data <= cnt ->
  off + length data <= length (rd buf m) ->
  MPI.MPI_Recv inbox unwrap buf off cnt src tag m
  = Ok tt (wr buf (firstn off (rd buf m) ++ data
                     ++ skipn (off + length data) (rd buf m)) m)
       [Recv p src tag].
Proof.
  intros Hin Hun Hcnt Hfit. unfold MPI.MPI_Recv.
  rewrite Hin. cbn [or_blocked]. rewrite bind_ret_l.
  rewrite Hun. cbn [or_fault]. rewrite bind_ret_l.
  rewrite (proj2 (Nat.leb_le _ _) Hcnt).
  unfold bind, emit. now rewrite ablit_ok.
Qed.

End LoopFacts.

(* ------------------------------------------------------------------ *)
(** ** The compute loops as pure functions *)

Section AddLoops.
Import MatrixAdd.

Lemma add_spec_length la lb c : length (add_spec la lb c) = c.
Proof. unfold add_spec. now rewrite length_map, length_seq. Qed.

Lemma add_spec_S la lb c :
  add_spec la lb (S c)
  = add_spec la lb c ++ [C.int_add (nth c la 0%Z) (nth c lb 0%Z)].
Proof. unfold add_spec. now rewrite seq_S, map_app. Qed.

(** Lines 71-73: the first [LENGTH / np] cells of [localSum] become the
    sums of the corresponding cells of [localA] and [localB]; nothing
    else changes. *)
Lemma root_add_spec np m :
  LENGTH / np <= length (localA m) ->
  LENGTH / np <= length (localB m) ->
  LENGTH / np <= length (localSum m) ->
  root_add np m
  = Ok tt (wr arr_localSum
             (add_spec (localA m) (localB m) (LENGTH / np)
                ++ skipn (LENGTH / np) (localSum m)) m) [].
Proof.
  destruct m as [a b la lb ls hn]. cbn [localA localB localSum].
  intros Ha Hb Hs. unfold root_add.
  set (st := fun k =>
    wr arr_localSum (add_spec la lb k ++ skipn k ls)
       {| A := a; B := b; localA := la; localB := lb; localSum := ls;
          hostname := hn |}).
  apply (for_range_steps st). intros k Hk.
  erewrite bind_Ok by (apply (@aget_ok _ _ arr_localA k (st k) 0%Z); cbn; lia).
  erewrite bind_Ok by (apply (@aget_ok _ _ arr_localB k (st k) 0%Z); cbn; lia).
  cbn [rd arr_localA arr_localB st wr arr_localSum localA localB].
  erewrite aset_ok.
  - reflexivity.
  - cbn [rd arr_localSum localSum].
    rewrite <- (add_spec_length la lb k) at 2 3.
    rewrite store_next by (rewrite add_spec_length; lia).
    now rewrite add_spec_length, add_spec_S.
Qed.

(** Lines 120-122. *)
Lemma worker_add_spec np m :
  LENGTH / np <= length (localA m) ->
  LENGTH / np <= length (localB m) ->
  LENGTH / np <= length (localSum m) ->
  worker_add np m
  = Ok tt (wr arr_localSum
             (add_spec (localA m) (localB m) (LENGTH / np)
                ++ skipn (LENGTH / np) (localSum m)) m) [].
Proof. exact (@root_add_spec np m). Qed.

Lemma length_div_le np : LENGTH / np <= LENGTH.
Proof.
  destruct np as [|np]; [cbn; lia|].
  apply Nat.Div0.div_le_upper_bound. lia.
Qed.

(** What a rank computes is the elementwise sum of its two portions,
    whichever branch of [main] it runs. *)
Lemma add_local_result np me m :
  wf m ->
  local_result np (local_compute np me m)
  = Some (add_spec (localA m) (localB m) (LENGTH / np)).
Proof.
  intros (_ & _ & Ha & Hb & Hs & _). pose proof (length_div_le np) as Hc.
  unfold local_compute.
  destruct (me =? 0);
    [rewrite root_add_spec by lia | rewrite worker_add_spec by lia];
    cbn [local_result wr arr_localSum localSum];
    rewrite firstn_app, add_spec_length, Nat.sub_diag, firstn_O, app_nil_r;
    rewrite <- (add_spec_length (localA m) (localB m) (LENGTH / np)) at 1;
    now rewrite firstn_all.
Qed.

End AddLoops.

Section MulLoops.
Import MatMul.

Lemma mul_spec_length la x rows : length (mul_spec la x rows) = rows.
Proof. unfold mul_spec. now rewrite length_map, length_seq. Qed.

Lemma mul_spec_S la x rows :
  mul_spec la x (S rows) = mul_spec la x rows ++ [dot_upto la x rows N].
Proof. unfold mul_spec. now rewrite seq_S, map_app. Qed.

Lemma dot_upto_S la x i n :
  dot_upto la x i (S n)
  = C.f32_add (dot_upto la x i n)
      (C.f32_mul (nth (i * N + n) la C.f32_zero) (nth n x C.f32_zero)).
Proof. unfold dot_upto. now rewrite seq_S, fold_left_app. Qed.

(** Lines 79-81 for one row [i]: cell [i] of [localResult] accumulates
    the products of row [i] of [localA] with [matX]. *)
Lemma row_loop_spec hn ma x res la pre acc post i :
  length pre = i ->
  i * N + N <= length la ->
  N <= length x ->
  acc = C.f32_zero ->
  for_range 0 N (fun j =>
      r <- aget arr_localResult i ;;
      a <- aget arr_localA (i * N + j) ;;
      x <- aget arr_matX j ;;
      aset arr_localResult i (C.f32_add r (C.f32_mul a x)))
    {| hostname := hn; matA := ma; matX := x; result := res; localA := la;
       localResult := pre ++ acc :: post |}
  = Ok tt
      {| hostname := hn; matA := ma; matX := x; result := res; localA := la;
         localResult := pre ++ dot_upto la x i N :: post |} [].
Proof.
  intros <- Hla Hx ->.
  set (i := length pre) in *.
  set (st := fun j =>
    {| hostname := hn; matA := ma; matX := x; result := res; localA := la;
       localResult := pre ++ dot_upto la x i j :: post |}).
  apply (for_range_steps st). intros j Hj.
  erewrite bind_Ok
    by (apply (@aget_ok _ _ arr_localResult i (st j) C.f32_zero); cbn;
        rewrite length_app; cbn; lia).
  erewrite bind_Ok
    by (apply (@aget_ok _ _ arr_localA (i * N + j) (st j) C.f32_zero); cbn; lia).
  erewrite bind_Ok
    by (apply (@aget_ok _ _ arr_matX j (st j) C.f32_zero); cbn; lia).
  cbn [rd arr_localResult arr_localA arr_matX st localResult localA matX].
  replace (nth i (pre ++ dot_upto la x i j :: post) C.f32_zero)
    with (dot_upto la x i j) by (symmetry; apply nth_here).
  erewrite aset_ok by (cbn [rd arr_localResult localResult st]; apply store_here).
  unfold st. cbn [wr arr_localResult hostname matA matX result localA].
  now rewrite dot_upto_S.
Qed.

(** Lines 77-82. *)
Lemma root_multiply_spec rows m :
  rows <= length (localResult m) ->
  rows * N <= length (localA m) ->
  N <= length (matX m) ->
  root_multiply rows m
  = Ok tt (wr arr_localResult
             (mul_spec (localA m) (matX m) rows ++ skipn rows (localResult m)) m) [].
Proof.
  destruct m as [hn ma x res la lr]. cbn [localA localResult matX].
  intros Hr Hla Hx. unfold root_multiply.
  set (st := fun i =>
    wr arr_localResult (mul_spec la x i ++ skipn i lr)
       {| hostname := hn; matA := ma; matX := x; result := res; localA := la;
          localResult := lr |}).
  apply (for_range_steps st). intros i Hi.
  erewrite bind_Ok.
  2:{ apply aset_ok. cbn [st rd wr arr_localResult localResult].
      rewrite <- (mul_spec_length la x i) at 2 3.
      apply store_next. rewrite mul_spec_length. lia. }
  cbn [st wr arr_localResult hostname matA matX result localA].
  rewrite mul_spec_length, <- app_assoc. cbn [app].
  rewrite mul_spec_S, <- app_assoc. cbn [app].
  apply row_loop_spec; [apply mul_spec_length | nia | lia | reflexivity].
Qed.

(** Lines 112-117. *)
Lemma worker_multiply_spec rows m :
  rows <= length (localResult m) ->
  rows * N <= length (localA m) ->
  N <= length (matX m) ->
  worker_multiply rows m
  = Ok tt (wr arr_localResult
             (mul_spec (localA m) (matX m) rows ++ skipn rows (localResult m)) m) [].
Proof. exact (@root_multiply_spec rows m). Qed.

(** More rows than [localResult] has cells: the store of line 78 leaves
    the array at row [N / 4]. *)
Lemma root_multiply_overflow rows m :
  wf m -> localResult_cells < rows -> root_multiply rows m = Fault [].
Proof.
  intros (_ & _ & Hx & _ & Hla & Hlr) Hrows.
  pose proof (@root_multiply_spec localResult_cells m
                ltac:(lia) ltac:(rewrite Hla; reflexivity) ltac:(lia)) as Hfirst.
  unfold root_multiply, for_range in *. rewrite Nat.sub_0_r in *.
  replace rows with (localResult_cells + S (rows - S localResult_cells)) by lia.
  rewrite seq_app, for_each_app.
  erewrite bind_Ok by exact Hfirst.
  cbn [seq for_each Nat.add]. apply bind_Fault. apply bind_Fault.
  unfold aset, bind, get, or_fault, store.
  cbn [rd wr arr_localResult localResult].
  rewrite length_app, mul_spec_length, length_skipn, Hlr, Nat.sub_diag.
  reflexivity.
Qed.

Lemma worker_multiply_overflow rows m :
  wf m -> localResult_cells < rows -> worker_multiply rows m = Fault [].
Proof. exact (@root_multiply_overflow rows m). Qed.

(** What a rank computes is one dot product per row of its portion,
    whichever branch of [main] it runs, as long as the rows fit. *)
Lemma mul_local_result np me m :
  wf m ->
  local_result np (local_compute np me m)
  = if rows_per_proc np <=? localResult_cells
    then Some (mul_spec (localA m) (matX m) (rows_per_proc np))
    else None.
Proof.
  intros Hwf. pose proof Hwf as (_ & _ & Hx & _ & Hla & Hlr).
  unfold local_compute.
  destruct (Nat.leb_spec (rows_per_proc np) localResult_cells) as [Hfit|Hover].
  - assert (Hcells : rows_per_proc np * N <= length (localA m))
      by (rewrite Hla; unfold localA_cells, localA_rows, localResult_cells in *; nia).
    destruct (me =? 0);
      [rewrite root_multiply_spec by lia | rewrite worker_multiply_spec by lia];
      cbn [local_result wr arr_localResult localResult];
      rewrite firstn_app, mul_spec_length, Nat.sub_diag, firstn_O, app_nil_r;
      rewrite <- (mul_spec_length (localA m) (matX m) (rows_per_proc np)) at 1;
      now rewrite firstn_all.
  - destruct (me =? 0);
      [rewrite root_multiply_overflow by assumption
      | rewrite worker_multiply_overflow by assumption];
      reflexivity.
Qed.

End MulLoops.

Unset Implicit Arguments.

(* ------------------------------------------------------------------ *)
(** ** Group sizes that matrix_add_v2.c accepts *)

Lemma invalid_config_iff np :
  MatrixAdd.invalid_config np = true
  <-> MatrixAdd.LENGTH mod np <> 0 \/ MatrixAdd.MAXPROC < np.
Proof.
  unfold MatrixAdd.invalid_config.
  rewrite orb_true_iff, negb_true_iff, Nat.ltb_lt, Nat.eqb_neq. tauto.
Qed.

Lemma valid_config_iff np :
  MatrixAdd.invalid_config np = false
  <-> MatrixAdd.LENGTH mod np = 0 /\ np <= MatrixAdd.MAXPROC.
Proof.
  unfold MatrixAdd.invalid_config.
  rewrite orb_false_iff, negb_false_iff, Nat.ltb_ge, Nat.eqb_eq. tauto.
Qed.

(** The divisors of 48 up to 8. *)
Lemma valid_config_cases np :
  MatrixAdd.invalid_config np = false -> In np [1; 2; 3; 4; 6; 8].
Proof.
  intros H. apply valid_config_iff in H. destruct H as [Hmod Hmax].
  unfold MatrixAdd.MAXPROC in Hmax.
  do 9 (destruct np as [|np];
        [ vm_compute in Hmod; try discriminate; simpl; tauto | ]).
  lia.
Qed.

(** Case analysis on an accepted group size. *)
Ltac each_valid_np H :=
  apply valid_config_cases in H; simpl in H;
  repeat (destruct H as [<- | H]); [ .. | contradiction ].

(** Case analysis on a rank below a known bound. *)
Ltac each_rank me H :=
  repeat (destruct me as [|me]; [ | apply (proj2 (Nat.succ_lt_mono _ _)) in H ]);
  try (exfalso; lia).

(** A rejected configuration on any rank of matrix_add_v2.c: lines 56-61
    on rank 0, lines 108-111 on the others. *)
Lemma rejected_run (s : MatrixAdd.setup) (np me : nat) :
  MatrixAdd.invalid_config np = true ->
  exists m,
    MatrixAdd.run s np me
    = Exited 0%Z m
        (if me =? 0
         then [Print (Usage MatrixAdd.LENGTH MatrixAdd.MAXPROC); Finalize]
         else [Finalize]).
Proof.
  intros H. destruct me as [|me].
  - unfold MatrixAdd.run, MatrixAdd.run_root, MatrixAdd.main. cbn [Nat.eqb].
    rewrite H. vm_compute. eauto.
  - unfold MatrixAdd.run, MatrixAdd.run_worker, MatrixAdd.main. cbn [Nat.eqb].
    rewrite H. vm_compute. eauto.
Qed.

(* ------------------------------------------------------------------ *)
(** ** Chunk sizes and the phases of scatter_matrix_mult.c *)

(** The rows of a group of at least 4 fit the local arrays. *)
Lemma rows_fit np :
  4 <= np -> MatMul.rows_per_proc np <= MatMul.localResult_cells.
Proof.
  intros H. unfold MatMul.rows_per_proc, MatMul.localResult_cells.
  apply Nat.div_le_compat_l. lia.
Qed.

Section ChunkSizes.

(** Every rank below [np] is sent a full chunk. *)
Lemma chunk_length {T} (d : list T) (len np me : nat) :
  length d = len -> me < np ->
  length (MPI.scatter_chunk (len / np) me d) = len / np.
Proof.
  intros Hd Hme. apply slice_length.
  pose proof (Nat.Div0.mul_div_le len np). nia.
Qed.

Lemma chunk_rows_length {T} (d : list T) (n np me : nat) :
  length d = n * n -> me < np ->
  length (MPI.scatter_chunk (n / np * n) me d) = n / np * n.
Proof.
  intros Hd Hme. apply slice_length.
  pose proof (Nat.Div0.mul_div_le n np). nia.
Qed.

End ChunkSizes.

Section ScatterCompute.
Import MatMul.

Variable net : network.
Variables np me : nat.
Variable m : mem.
Hypothesis Hme : me < np.
Hypothesis Hwf : wf m.
Hypothesis HrootA : length (root_matA net) = N * N.
Hypothesis HrootX : length (root_matX net) = N.

Local Abbreviation src := (scatter_source net me m).

Lemma scatter_source_length : length src = N * N.
Proof.
  unfold scatter_source. destruct (me =? root); [apply Hwf | exact HrootA].
Qed.

Lemma scatter_chunk_cells :
  length (MPI.scatter_chunk (rows_per_proc np * N) me src) = rows_per_proc np * N.
Proof. apply chunk_rows_length; [apply scatter_source_length | exact Hme]. Qed.

Lemma scatter_send_fits : me = root -> np * (rows_per_proc np * N) <= length src.
Proof.
  intros _. rewrite scatter_source_length. unfold rows_per_proc.
  pose proof (Nat.Div0.mul_div_le N np). nia.
Qed.

(** With fewer than 4 processes the scatter writes past [localA]. *)
Lemma scatter_compute_overflow :
  np < 4 ->
  localA_cells < rows_per_proc np * N /\
  scatter_compute net np me m = Fault [Scatter (rows_per_proc np * N) root].
Proof.
  intros Hnp.
  assert (Hover : localA_cells < rows_per_proc np * N).
  { destruct np as [|[|[|[|n]]]]; try lia; vm_compute; lia. }
  split; [exact Hover|].
  assert (Hscatter :
    MPI.MPI_Scatter (root_matA net) np me arr_matA (rows_per_proc np * N)
                    arr_localA root m
    = Fault [Scatter (rows_per_proc np * N) root]).
  { apply scatter_overflow; [exact scatter_send_fits|].
    change (length (localA m)
            < length (MPI.scatter_chunk (rows_per_proc np * N) me src)).
    rewrite scatter_chunk_cells.
    destruct Hwf as (_ & _ & _ & _ & -> & _). exact Hover. }
  unfold scatter_compute, root_scatter_compute, worker_scatter_compute.
  destruct (Nat.eqb_spec me 0) as [E|_].
  - rewrite E in Hscatter. now apply bind_Fault.
  - now apply bind_Fault.
Qed.

(** With at least 4 processes the scatter, the broadcast and the
    multiplication stay inside every array. *)
Lemma scatter_compute_fits_full :
  4 <= np ->
  exists m',
    scatter_compute net np me m
    = Ok tt m' [Scatter (rows_per_proc np * N) root; Bcast N root] /\
    wf m' /\
    result m' = result m /\
    firstn (rows_per_proc np) (localResult m')
    = mul_spec (MPI.scatter_chunk (rows_per_proc np * N) me src
                  ++ skipn (rows_per_proc np * N) (localA m))
               (if me =? root then matX m else root_matX net)
               (rows_per_proc np) /\
    localA m'
    = MPI.scatter_chunk (rows_per_proc np * N) me src
        ++ skipn (rows_per_proc np * N) (localA m).
Proof.
  intros Hnp. pose proof (rows_fit np Hnp) as Hrows.
  pose proof Hwf as (Hh & HA & HX & HR & HLA & HLR).
  assert (Hcells : rows_per_proc np * N <= localA_cells)
    by (unfold localA_cells, localA_rows, localResult_cells in *; nia).
  assert (Hscatter :
    MPI.MPI_Scatter (root_matA net) np me arr_matA (rows_per_proc np * N)
                    arr_localA root m
    = Ok tt (wr arr_localA
               (MPI.scatter_chunk (rows_per_proc np * N) me src
                  ++ skipn (rows_per_proc np * N) (localA m)) m)
         [Scatter (rows_per_proc np * N) root]).
  { rewrite scatter_ok.
    - change (if me =? root then rd arr_matA m else root_matA net) with src.
      now rewrite scatter_chunk_cells.
    - exact scatter_send_fits.
    - change (length (MPI.scatter_chunk (rows_per_proc np * N) me src)
              <= length (localA m)).
      rewrite scatter_chunk_cells. lia. }
  set (m1 := wr arr_localA _ m) in Hscatter.
  assert (Hbcast :
    MPI.MPI_Bcast (root_matX net) me arr_matX N root m1
    = Ok tt (if me =? root then m1
             else wr arr_matX (firstn N (root_matX net) ++ skipn N (matX m1)) m1)
         [Bcast N root]).
  { apply bcast_ok; cbn [rd arr_matX m1 wr arr_localA matX]; lia. }
  set (m2 := if me =? root then m1 else _) in Hbcast.
  assert (Hframe : result m2 = result m)
    by (unfold m2, m1; destruct (me =? root); reflexivity).
  assert (Hwf2 : wf m2 /\
                 localA m2 = MPI.scatter_chunk (rows_per_proc np * N) me src
                               ++ skipn (rows_per_proc np * N) (localA m) /\
                 matX m2 = (if me =? root then matX m else root_matX net) /\
                 localResult m2 = localResult m).
  { unfold m2, m1. destruct (me =? root);
      cbn [wr arr_matX arr_localA hostname matA matX result localA localResult];
      (split; [unfold wf;
               cbn [wr arr_matX arr_localA hostname matA matX result localA
                    localResult];
               rewrite ?length_app, ?scatter_chunk_cells, ?length_skipn, ?firstn_length_le by lia;
               repeat split; lia |]).
    - repeat split.
    - repeat split.
      rewrite (skipn_all2 (matX m)), app_nil_r by lia.
      rewrite <- HrootX. apply firstn_all. }
  destruct Hwf2 as (Hwf2 & ELA & EX & ELR).
  pose proof Hwf2 as (_ & _ & HX2 & _ & HLA2 & HLR2).
  assert (Hmul :
    root_multiply (rows_per_proc np) m2
    = Ok tt (wr arr_localResult
               (mul_spec (localA m2) (matX m2) (rows_per_proc np)
                  ++ skipn (rows_per_proc np) (localResult m2)) m2) [])
    by (apply root_multiply_spec; lia).
  exists (wr arr_localResult
            (mul_spec (localA m2) (matX m2) (rows_per_proc np)
               ++ skipn (rows_per_proc np) (localResult m2)) m2).
  split; [|split; [|split; [exact Hframe|]]].
  - unfold scatter_compute, root_scatter_compute, worker_scatter_compute.
    destruct (Nat.eqb_spec me 0) as [E|_].
    + revert Hscatter Hbcast. rewrite E. intros Hscatter Hbcast.
      erewrite bind_step by exact Hscatter.
      erewrite bind_step by exact Hbcast.
      rewrite Hmul. reflexivity.
    + erewrite bind_step by exact Hscatter.
      erewrite bind_step by exact Hbcast.
      change (worker_multiply (rows_per_proc np) m2)
        with (root_multiply (rows_per_proc np) m2).
      rewrite Hmul. reflexivity.
  - destruct Hwf2 as (? & ? & ? & ? & ? & ?). unfold wf.
    cbn [wr arr_localResult hostname matA matX result localA localResult].
    rewrite length_app, mul_spec_length, length_skipn. repeat split; lia.
  - split; [|exact ELA].
    cbn [wr arr_localResult localResult].
    rewrite firstn_app, mul_spec_length, Nat.sub_diag, firstn_O, app_nil_r.
    rewrite ELA, EX.
    set (r := mul_spec _ _ _).
    replace (rows_per_proc np) with (length r)
      by (unfold r; apply mul_spec_length).
    apply firstn_all.
Qed.

Lemma scatter_compute_fits :
  4 <= np ->
  exists m',
    scatter_compute net np me m
    = Ok tt m' [Scatter (rows_per_proc np * N) root; Bcast N root] /\
    wf m' /\
    result m' = result m /\
    firstn (rows_per_proc np) (localResult m')
    = mul_spec (MPI.scatter_chunk (rows_per_proc np * N) me src
                  ++ skipn (rows_per_proc np * N) (localA m))
               (if me =? root then matX m else root_matX net)
               (rows_per_proc np).
Proof.
  intros Hnp.
  destruct (scatter_compute_fits_full Hnp) as (m' & E & Hwf' & Hres & Hown & _).
  exists m'. split; [exact E | split; [exact Hwf' | split; assumption]].
Qed.

End ScatterCompute.

(* ------------------------------------------------------------------ *)
(** ** Whole runs of scatter_matrix_mult.c *)

Section MulRuns.
Import MatMul.

Variable s : setup.

Lemma start_wf me : wf (start s me).
Proof. repeat split. Qed.

Lemma root_arrays_length :
  length (fst (root_arrays s)) = N * N /\ length (snd (root_arrays s)) = N.
Proof. vm_compute. split; reflexivity. Qed.

(** Lines 46-51 on the root's fresh memory. *)
Lemma init_matrix_start :
  init_matrix (start s 0)
  = Ok tt (wr arr_matA (fst (root_arrays s))
             (wr arr_matX (snd (root_arrays s)) (start s 0))) [].
Proof. vm_compute. reflexivity. Qed.

Variable np : nat.
Hypothesis Hnp : 4 <= np.

(** A worker of a group of at least 4 runs to its end and sends its block. *)
Lemma worker_run_full me :
  1 <= me -> me < np ->
  exists m',
    run_worker s np me
    = Ok 0%Z m'
        [Scatter (rows_per_proc np * N) root; Bcast N root;
         Print (Computed me (hosts s me) (block s np me));
         Send (Floats (block s np me)) 0 resulttag; Finalize] /\
    firstn (rows_per_proc np) (localResult m') = block s np me /\
    localA m'
    = MPI.scatter_chunk (rows_per_proc np * N) me (fst (root_arrays s))
        ++ skipn (rows_per_proc np * N) (localA (start s me)).
Proof.
  intros H1 Hme.
  destruct root_arrays_length as [HA HX].
  destruct (scatter_compute_fits_full (worker_net s) np me (start s me)
              Hme (start_wf me) HA HX Hnp) as (m' & E & Hwf' & _ & Hres & HLA).
  unfold scatter_compute, scatter_source in *.
  destruct me as [|me]; [lia|]. cbn [Nat.eqb root] in *.
  exists m'. split; [|split; [exact Hres|exact HLA]].
  assert (Hrows : rows_per_proc np <= length (rd arr_localResult m'))
    by (cbn [rd arr_localResult];
        destruct Hwf' as (_ & _ & _ & _ & _ & ->); now apply rows_fit).
  change (firstn (rows_per_proc np) (localResult m') = block s np (S me)) in Hres.
  unfold run_worker, main. cbn [Nat.eqb].
  rewrite bind_assoc. erewrite bind_step by exact E.
  rewrite bind_assoc. erewrite bind_step by (now apply aread_ok).
  unfold MPI.MPI_Send, bind, emit, ret. rewrite aread_ok by exact Hrows.
  cbn [rd arr_localResult prepend app]. now rewrite Hres.
Qed.

Lemma worker_run me :
  1 <= me -> me < np ->
  exists m',
    run_worker s np me
    = Ok 0%Z m'
        [Scatter (rows_per_proc np * N) root; Bcast N root;
         Print (Computed me (hosts s me) (block s np me));
         Send (Floats (block s np me)) 0 resulttag; Finalize] /\
    firstn (rows_per_proc np) (localResult m') = block s np me.
Proof.
  intros H1 Hme.
  destruct (worker_run_full me H1 Hme) as (m' & E & Hres & _).
  exists m'. split; assumption.
Qed.

Local Abbreviation rows := (rows_per_proc np).

Lemma block_length i : length (block s np i) = rows.
Proof. apply mul_spec_length. Qed.

Lemma blocks_length k : length (blocks s np k) = k * rows.
Proof.
  unfold blocks. induction k as [|k IH]; [reflexivity|].
  rewrite seq_S, map_app, concat_app, length_app, IH. cbn [map concat Nat.add].
  rewrite app_nil_r, block_length. lia.
Qed.

Lemma blocks_succ k : blocks s np (S k) = blocks s np k ++ block s np k.
Proof.
  unfold blocks. rewrite seq_S, map_app, concat_app. cbn [map concat Nat.add].
  now rewrite app_nil_r.
Qed.

Lemma rows_total : np * rows <= N.
Proof. apply Nat.Div0.mul_div_le. Qed.

(** What the root finds when it waits for the result of rank [i]. *)
Lemma root_inbox i :
  1 <= i -> i < np ->
  inbox (root_net s np) i resulttag = Some (Floats (block s np i)).
Proof.
  intros H1 Hi. cbn [inbox root_net].
  rewrite (proj2 (Nat.leb_le _ _) H1), (proj2 (Nat.ltb_lt _ _) Hi).
  destruct (worker_run i H1 Hi) as (m' & -> & _). reflexivity.
Qed.

(** Lines 85-87. *)
Lemma copy_own_spec m :
  rows <= length (localResult m) ->
  rows <= length (result m) ->
  copy_own rows m
  = Ok tt (wr arr_result (firstn rows (localResult m) ++ skipn rows (result m)) m) [].
Proof.
  destruct m as [hn ma x res la lr]. cbn [localResult result].
  intros Hlr Hres. unfold copy_own.
  set (st := fun k =>
    wr arr_result (firstn k lr ++ skipn k res)
       {| hostname := hn; matA := ma; matX := x; result := res; localA := la;
          localResult := lr |}).
  apply (for_range_steps st). intros k Hk.
  erewrite bind_Ok
    by (apply (@aget_ok _ _ arr_localResult k (st k) C.f32_zero); cbn; lia).
  erewrite aset_ok.
  - reflexivity.
  - cbn [rd arr_localResult arr_result st wr result localResult].
    assert (Hpre : length (firstn k lr) = k) by (apply firstn_length_le; lia).
    rewrite <- Hpre at 2 3.
    rewrite store_next by lia.
    now rewrite Hpre, <- (firstn_succ lr C.f32_zero) by lia.
Qed.

(** Lines 90-93: one receive per worker, in rank order, each block landing
    right after the blocks of the lower ranks. *)
Lemma collect_spec m :
  length (result m) = N ->
  firstn rows (result m) = block s np 0 ->
  collect (root_net s np) np rows m
  = Ok tt (wr arr_result (blocks s np np ++ skipn (np * rows) (result m)) m)
       (map (fun i => Recv (Floats (block s np i)) i resulttag) (seq 1 (np - 1))).
Proof.
  destruct m as [hn ma x res la lr]. cbn [result].
  intros Hlen Hown. unfold collect, for_range.
  set (m0 := {| hostname := hn; matA := ma; matX := x; result := res;
                localA := la; localResult := lr |}).
  set (st := fun k =>
    wr arr_result (blocks s np (S k) ++ skipn (S k * rows) res) m0).
  set (ev := fun k => [Recv (Floats (block s np (S k))) (S k) resulttag]).
  assert (Hst0 : m0 = st 0).
  { unfold st, m0, blocks. cbn [wr arr_result seq map concat hostname matA matX
                                 localA localResult].
    rewrite app_nil_r, <- Hown, Nat.mul_1_l, firstn_skipn. reflexivity. }
  pose proof rows_total as Htot.
  rewrite Hst0 at 1.
  rewrite (for_each_seq_events st ev).
  - unfold st, ev. replace (S (np - 1)) with np by lia.
    now rewrite <- seq_shift, map_map, concat_singletons.
  - intros k Hk. cbn [Nat.add].
    assert (Hpre : length (blocks s np (S k)) = S k * rows) by apply blocks_length.
    assert (Hfit : S k * rows + length (block s np (S k)) <= N)
      by (rewrite block_length; nia).
    erewrite recv_ok;
      [ | apply root_inbox; lia | reflexivity | rewrite block_length; reflexivity
        | cbn [rd arr_result st wr result];
          rewrite length_app, length_skipn, Hpre; lia ].
    unfold ev, st. cbn [rd wr arr_result result hostname matA matX localA localResult].
    do 2 f_equal.
    replace (S (S k) * rows)
      with (length (blocks s np (S k)) + length (block s np (S k)))
      by (rewrite Hpre, block_length; lia).
    rewrite <- Hpre, (blocks_succ (S k)).
    apply blit_next_cells. rewrite Hpre, Hlen. exact Hfit.
Qed.

(** The coordinator of a group of at least 4 runs to its end; [result]
    then holds the blocks of all ranks in rank order. *)
Lemma root_run_full :
  exists m',
    run_root s np
    = Ok 0%Z m'
        (Print (NumProcs np) :: Print (MatrixA (fst (root_arrays s)))
           :: Print (VectorX (snd (root_arrays s)))
           :: Scatter (rows * N) root :: Bcast N root
           :: map (fun i => Recv (Floats (block s np i)) i resulttag)
                  (seq 1 (np - 1))
           ++ [Print (FinalVector (result m')); Finalize]) /\
    result m' = blocks s np np ++ skipn (np * rows) (result (start s 0)) /\
    firstn rows (localResult m') = block s np 0 /\
    localA m'
    = MPI.scatter_chunk (rows * N) 0 (fst (root_arrays s))
        ++ skipn (rows * N) (localA (start s 0)).
Proof.
  destruct root_arrays_length as [HA HX].
  set (m1 := wr arr_matA (fst (root_arrays s))
               (wr arr_matX (snd (root_arrays s)) (start s 0))).
  assert (Hwf1 : wf m1).
  { split; [reflexivity|]. split; [exact HA|]. split; [exact HX|].
    repeat split. }
  destruct (scatter_compute_fits_full (root_net s np) np 0 m1
              ltac:(lia) Hwf1 HA HX Hnp) as (m2 & E & Hwf2 & Hres2 & Hown & HLA).
  change (localA m2
          = MPI.scatter_chunk (rows * N) 0 (fst (root_arrays s))
              ++ skipn (rows * N) (localA (start s 0))) in HLA.
  change (firstn rows (localResult m2) = block s np 0) in Hown.
  change (result m2 = result (start s 0)) in Hres2.
  change (root_scatter_compute (root_net s np) np m1
          = Ok tt m2 [Scatter (rows * N) root; Bcast N root]) in E.
  pose proof Hwf2 as (_ & _ & _ & HR2 & _ & HLR2).
  pose proof (rows_fit np Hnp) as Hrows.
  pose proof rows_total as Htot.
  assert (Hrows' : rows <= N) by nia.
  set (m3 := wr arr_result (firstn rows (localResult m2) ++ skipn rows (result m2)) m2).
  assert (Hcopy : copy_own rows m2 = Ok tt m3 []) by (apply copy_own_spec; lia).
  assert (HR3 : length (result m3) = N).
  { unfold m3. cbn [wr arr_result result].
    rewrite length_app, firstn_length_le, length_skipn by lia. lia. }
  assert (Hown3 : firstn rows (result m3) = block s np 0).
  { unfold m3. cbn [wr arr_result result].
    rewrite firstn_app, firstn_firstn, Nat.min_id, firstn_length_le by lia.
    now rewrite Nat.sub_diag, firstn_O, app_nil_r. }
  pose proof (collect_spec m3 HR3 Hown3) as Hcollect.
  set (m4 := wr arr_result _ m3) in Hcollect.
  assert (HL0 : length (result (start s 0)) = N) by reflexivity.
  assert (HR4 : result m4 = blocks s np np ++ skipn (np * rows) (result (start s 0))).
  { unfold m4, m3. cbn [wr arr_result result]. f_equal.
    rewrite skipn_app, firstn_length_le by lia.
    rewrite skipn_all2 by (rewrite firstn_length_le by lia; nia).
    rewrite skipn_skipn, Hres2. cbn [app]. f_equal. nia. }
  assert (HN4 : length (result m4) = N).
  { rewrite HR4, length_app, blocks_length, length_skipn, HL0. lia. }
  exists m4. split; [|split; [exact HR4 | split; [exact Hown | exact HLA]]].
  unfold run_root, main. cbn [Nat.eqb].
  rewrite bind_assoc; erewrite bind_step by reflexivity.
  rewrite bind_assoc; erewrite bind_step by exact init_matrix_start.
  fold m1.
  rewrite bind_assoc; erewrite bind_step
    by (apply aread_ok; cbn [rd arr_matA]; unfold m1; cbn [wr arr_matA matA];
        rewrite HA; lia).
  rewrite bind_assoc; erewrite bind_step by reflexivity.
  rewrite bind_assoc; erewrite bind_step
    by (apply aread_ok; cbn [rd arr_matX]; unfold m1;
        cbn [wr arr_matA arr_matX matX]; rewrite HX; lia).
  rewrite bind_assoc; erewrite bind_step by reflexivity.
  rewrite bind_assoc; erewrite bind_step by exact E.
  rewrite bind_assoc; erewrite bind_step by exact Hcopy.
  rewrite bind_assoc; erewrite bind_step by exact Hcollect.
  rewrite bind_assoc; erewrite bind_step
    by (apply aread_ok; cbn [rd arr_result]; rewrite HN4; lia).
  unfold bind, emit, ret. cbn [prepend app rd arr_matA arr_matX arr_result].
  change (matA m1) with (fst (root_arrays s)).
  change (matX m1) with (snd (root_arrays s)).
  rewrite (firstn_all2 (fst (root_arrays s))) by (rewrite HA; apply Nat.le_refl).
  rewrite (firstn_all2 (snd (root_arrays s))) by (rewrite HX; apply Nat.le_refl).
  rewrite (firstn_all2 (result m4)) by (rewrite HN4; apply Nat.le_refl).
  reflexivity.
Qed.

Lemma root_run :
  exists m',
    run_root s np
    = Ok 0%Z m'
        (Print (NumProcs np) :: Print (MatrixA (fst (root_arrays s)))
           :: Print (VectorX (snd (root_arrays s)))
           :: Scatter (rows * N) root :: Bcast N root
           :: map (fun i => Recv (Floats (block s np i)) i resulttag)
                  (seq 1 (np - 1))
           ++ [Print (FinalVector (result m')); Finalize]) /\
    result m' = blocks s np np ++ skipn (np * rows) (result (start s 0)) /\
    firstn rows (localResult m') = block s np 0.
Proof.
  destruct root_run_full as (m' & E & Hres & Hown & _).
  exists m'. split; [exact E | split; assumption].
Qed.

(** The block of rank [i] lies in [result] from cell [i * rows] on. *)
Lemma block_in_blocks i rest :
  i < np -> slice (i * rows) rows (blocks s np np ++ rest) = block s np i.
Proof.
  intros Hi. unfold blocks.
  assert (Hseq : seq 0 np = seq 0 i ++ i :: seq (S i) (np - S i)).
  { replace np with (i + S (np - S i)) at 1 by lia. now rewrite seq_app. }
  rewrite Hseq, map_app, concat_app. cbn [map concat].
  fold (blocks s np i). unfold slice.
  rewrite <- !app_assoc, <- (blocks_length i), skipn_app, Nat.sub_diag.
  rewrite skipn_all, skipn_O. cbn [app].
  rewrite <- (block_length i) at 1.
  now rewrite firstn_app, Nat.sub_diag, firstn_all, firstn_O, app_nil_r.
Qed.

Lemma receives_of_root_run pre post :
  (forall e, In e (pre ++ post) -> recv_header e = None) ->
  receives (pre ++ map (fun i => Recv (Floats (block s np i)) i resulttag)
                       (seq 1 (np - 1)) ++ post)
  = map (fun i => Recv (Floats (block s np i)) i resulttag) (seq 1 (np - 1)).
Proof.
  intros Hno. unfold receives. rewrite !filter_app.
  assert (Hnone : forall l,
            (forall e, In e l -> recv_header e = None) ->
            filter (fun e => match e with Recv _ _ _ => true | _ => false end) l
            = []).
  { induction l as [|e l IH]; intros Hl; [reflexivity|].
    cbn [filter]. pose proof (Hl e (or_introl eq_refl)) as He.
    destruct e; try discriminate He; apply IH; intros e' He';
      apply Hl; now right. }
  rewrite (Hnone pre), (Hnone post)
    by (intros e He; apply Hno, in_or_app; tauto).
  rewrite app_nil_r. cbn [app].
  induction (seq 1 (np - 1)) as [|i l IH]; [reflexivity|].
  cbn [map filter]. now rewrite IH.
Qed.

End MulRuns.

(* ------------------------------------------------------------------ *)
(** ** What the ranks hold after the scatters *)

(** The rows that the ranks are sent together: all [N] exactly when [np]
    divides [N]. *)
Lemma rows_cover_iff np :
  1 <= np ->
  (MatMul.N mod np = 0 -> np * MatMul.rows_per_proc np = MatMul.N) /\
  (MatMul.N mod np <> 0 -> np * MatMul.rows_per_proc np < MatMul.N).
Proof.
  intros Hnp. unfold MatMul.rows_per_proc.
  pose proof (Nat.div_mod_eq MatMul.N np) as E.
  pose proof (Nat.mod_upper_bound MatMul.N np ltac:(lia)) as Hlt.
  split; intros H; lia.
Qed.

(** With at least 4 processes every rank ends its run holding, in the
    first [rows_per_proc np * N] cells of [localA], the chunk the scatter
    sent it. *)
Lemma rows_held_chunk (s : MatMul.setup) (np me : nat) :
  4 <= np -> me < np ->
  MatMul.rows_held s np me
  = Some (MPI.scatter_chunk (MatMul.rows_per_proc np * MatMul.N) me
            (fst (MatMul.root_arrays s))).
Proof.
  intros Hnp Hme.
  destruct (root_arrays_length s) as [HA _].
  pose proof (chunk_rows_length (fst (MatMul.root_arrays s)) MatMul.N np me HA Hme)
    as Hlen.
  fold (MatMul.rows_per_proc np) in Hlen.
  unfold MatMul.rows_held, MatMul.run.
  destruct me as [|me].
  - cbn [Nat.eqb].
    destruct (root_run_full s np Hnp) as (m' & -> & _ & _ & HLA).
    cbn [MatMul.final_mem option_map]. rewrite HLA. f_equal.
    rewrite firstn_app, Hlen, Nat.sub_diag, firstn_O, app_nil_r.
    apply firstn_all2. rewrite Hlen. apply Nat.le_refl.
  - cbn [Nat.eqb].
    destruct (worker_run_full s np Hnp (S me) ltac:(lia) Hme)
      as (m' & -> & _ & HLA).
    cbn [MatMul.final_mem option_map]. rewrite HLA. f_equal.
    rewrite firstn_app, Hlen, Nat.sub_diag, firstn_O, app_nil_r.
    apply firstn_all2. rewrite Hlen. apply Nat.le_refl.
Qed.

(** In an accepted run of matrix_add_v2.c every rank ends holding, in the
    first [LENGTH / np] cells of [localA] and [localB], its slices of the
    root's [A] and [B], and these are the portions it prints. *)
Lemma portions_held_slices (s : MatrixAdd.setup) (np me : nat) :
  MatrixAdd.invalid_config np = false -> me < np ->
  MatrixAdd.portions_held s np me
  = Some (slice (me * (MatrixAdd.LENGTH / np)) (MatrixAdd.LENGTH / np)
            (fst (MatrixAdd.root_arrays s)),
          slice (me * (MatrixAdd.LENGTH / np)) (MatrixAdd.LENGTH / np)
            (snd (MatrixAdd.root_arrays s))) /\
  option_map (fun t => (fst (fst t), snd (fst t)))
             (MatrixAdd.local_data (trace_of (MatrixAdd.run s np me)))
  = MatrixAdd.portions_held s np me.
Proof.
  intros H Hme. each_valid_np H; each_rank me Hme; split; vm_compute; reflexivity.
Qed.

Lemma add_arrays_length (s : MatrixAdd.setup) :
  length (fst (MatrixAdd.root_arrays s)) = MatrixAdd.LENGTH /\
  length (snd (MatrixAdd.root_arrays s)) = MatrixAdd.LENGTH.
Proof. split; vm_compute; reflexivity. Qed.

Lemma accepted_divides np :
  MatrixAdd.invalid_config np = false ->
  np * (MatrixAdd.LENGTH / np) = MatrixAdd.LENGTH.
Proof. intros H. each_valid_np H; reflexivity. Qed.

(* ------------------------------------------------------------------ *)
(** ** The coordinator of matrix_add_v2.c between two rounds *)

Section RootStops.
Import MatrixAdd.

Lemma bind_cong_l (M A B : Type) (p p' : prog M A) (k : A -> prog M B) m :
  p m = p' m -> bind p k m = bind p' k m.
Proof. intros H. unfold bind. now rewrite H. Qed.

Lemma for_range_split (M A : Type) (lo mid hi : nat) (body : nat -> prog M unit)
    (k : unit -> prog M A) m :
  lo <= mid -> mid <= hi ->
  bind (for_range lo hi body) k m
  = bind (for_range lo mid body) (fun u => bind (for_range mid hi body) k) m.
Proof.
  intros H1 H2. rewrite <- bind_assoc. apply bind_cong_l.
  unfold for_range.
  replace (hi - lo) with ((mid - lo) + (hi - mid)) by lia.
  rewrite seq_app, for_each_app.
  replace (lo + (mid - lo)) with mid by lia. reflexivity.
Qed.

(** The branch of rank 0 is what it does up to the end of round [k]
    followed by what it does from there on. *)
Lemma root_stops net np myname k m0 :
  k < np ->
  main net np 0 myname m0
  = bind (root_upto net np myname k) (fun _ => root_from net np k) m0.
Proof.
  intros Hk.
  unfold main, root_upto, root_from, root_before_collect, collect.
  cbn [Nat.eqb].
  rewrite !bind_assoc. apply bind_ext; intros _ m1.
  rewrite !bind_assoc. apply bind_ext; intros _ m2.
  rewrite !bind_assoc. apply bind_ext; intros _ m3.
  rewrite !bind_assoc. apply bind_ext; intros _ m4.
  rewrite !bind_assoc. apply bind_ext; intros _ m5.
  rewrite !bind_assoc. apply bind_ext; intros _ m6.
  rewrite !bind_assoc. apply bind_ext; intros _ m7.
  fold (collect_round net np).
  rewrite bind_assoc.
  rewrite (@for_range_split mem Z 1 (S k) np) by lia.
  reflexivity.
Qed.

Lemma root_from_last net np m :
  1 <= np ->
  root_from net np (np - 1) m = Exited 0%Z m [Print Ready; Finalize].
Proof.
  intros Hnp. unfold root_from, for_range.
  replace (np - S (np - 1)) with 0 by lia. reflexivity.
Qed.

Lemma root_arrays_value s :
  root_arrays s
  = (map Z.of_nat (seq 0 LENGTH), map (fun i => Z.of_nat (LENGTH + i)) (seq 0 LENGTH)).
Proof. vm_compute. reflexivity. Qed.

Lemma sums_of_value s np k :
  invalid_config np = false -> k < np ->
  sums_of s np k
  = map (fun j => (48 + 2 * Z.of_nat (k * (LENGTH / np) + j))%Z) (seq 0 (LENGTH / np)).
Proof.
  intros H Hk. each_valid_np H; each_rank k Hk; vm_compute; reflexivity.
Qed.

Lemma all_sums_value s np :
  invalid_config np = false ->
  all_sums s np = map (fun i => (48 + 2 * Z.of_nat i)%Z) (seq 0 LENGTH).
Proof.
  intros H. each_valid_np H; vm_compute; reflexivity.
Qed.

(** The memory of rank 0 at the end of round [k]. *)
Lemma root_upto_memory s np k :
  invalid_config np = false -> k < np ->
  exists tr,
    root_upto (root_net s np) np (hosts s 0) k (start s 0)
    = Ok tt
        {| A := fst (root_arrays s);
           B := snd (root_arrays s);
           localA := slice 0 (LENGTH / np) (fst (root_arrays s))
                       ++ skipn (LENGTH / np) (localA (start s 0));
           localB := slice 0 (LENGTH / np) (snd (root_arrays s))
                       ++ skipn (LENGTH / np) (localB (start s 0));
           localSum := sums_of s np k
                         ++ skipn (LENGTH / np) (localSum (start s 0));
           hostname := map (fun i => if (1 <=? i) && (i <=? k)
                                     then hosts s i else junkname s 0 i)
                           (seq 0 MAXPROC) |}
        tr.
Proof.
  intros H Hk. each_valid_np H; each_rank k Hk; eexists; vm_compute; reflexivity.
Qed.

Lemma reported_value s np :
  invalid_config np = false ->
  reported (trace_of (run s np 0))
  = map (fun i => (i, sums_of s np i)) (seq 0 np).
Proof.
  intros H. each_valid_np H; vm_compute; reflexivity.
Qed.

Lemma portion_pos np : invalid_config np = false -> 1 <= LENGTH / np.
Proof. intros H. each_valid_np H; vm_compute; lia. Qed.

Lemma sums_of_length s np k :
  invalid_config np = false -> k < np ->
  length (sums_of s np k) = LENGTH / np.
Proof.
  intros H Hk. rewrite sums_of_value by assumption.
  now rewrite length_map, length_seq.
Qed.

Lemma sums_of_head s np k :
  invalid_config np = false -> k < np ->
  nth 0 (sums_of s np k) 0%Z = (48 + 2 * Z.of_nat (k * (LENGTH / np)))%Z.
Proof.
  intros H Hk. rewrite sums_of_value by assumption.
  pose proof (portion_pos np H) as Hc.
  destruct (LENGTH / np) as [|c]; [lia|].
  cbn [seq map nth]. now rewrite Nat.add_0_r.
Qed.

End RootStops.

(* ------------------------------------------------------------------ *)
(** ** Reading a local result cell by cell *)

Lemma nth_map_seq {B} (f : nat -> B) (n i : nat) (d : B) :
  i < n -> nth i (map f (seq 0 n)) d = f i.
Proof.
  intros Hi. rewrite (nth_indep _ d (f 0)) by (now rewrite length_map, length_seq).
  now rewrite map_nth, seq_nth.
Qed.

Lemma fold_left_ext_in {A B} (f g : A -> B -> A) (l : list B) :
  (forall acc j, In j l -> f acc j = g acc j) ->
  forall a0, fold_left f l a0 = fold_left g l a0.
Proof.
  induction l as [|j l IH]; intros Hfg a0; [reflexivity|].
  cbn [fold_left]. rewrite (Hfg a0 j (or_introl eq_refl)).
  apply IH. intros acc k Hk. apply Hfg. now right.
Qed.

(** A row product reads only the cells of its row. *)
Lemma dot_upto_firstn la x rows i :
  i < rows ->
  MatMul.dot_upto (firstn (rows * MatMul.N) la) x i MatMul.N
  = MatMul.dot_upto la x i MatMul.N.
Proof.
  intros Hi. unfold MatMul.dot_upto. apply fold_left_ext_in.
  intros acc j Hj. apply in_seq in Hj. rewrite nth_firstn.
  replace (i * MatMul.N + j <? rows * MatMul.N) with true
    by (symmetry; apply Nat.ltb_lt; nia).
  reflexivity.
Qed.

(* ------------------------------------------------------------------ *)
(** ** Properties *)

(** C1, as stated, fails on scatter_matrix_mult.c: with 3 processes, which
    do not divide the 16 rows, rank 1 goes straight into the scatter. *)
Lemma C1_mult_scatters_unchecked :
  MatMul.N mod 3 <> 0 /\
  trace_of (MatMul.run MatMul.demo 3 1) = [Scatter 80 0] /\
  existsb is_comm (trace_of (MatMul.run MatMul.demo 3 1)) = true.
Proof. vm_compute. repeat split; discriminate. Qed.

(** C1 (amended): in matrix_add_v2.c, when the group size does not divide
    the array length or exceeds the maximum, every rank finalizes and exits
    without any scatter, broadcast, send or receive: rank 0 after printing
    the usage line, the other ranks silently. *)
Theorem C1_matrix_add_rejects (s : MatrixAdd.setup) (np me : nat) :
  me < np ->
  MatrixAdd.LENGTH mod np <> 0 \/ MatrixAdd.MAXPROC < np ->
  exists c m,
    MatrixAdd.run s np me
    = Exited c m
        (if me =? 0
         then [Print (Usage MatrixAdd.LENGTH MatrixAdd.MAXPROC); Finalize]
         else [Finalize])
    /\ existsb is_comm (trace_of (MatrixAdd.run s np me)) = false.
Proof.
  intros _ H. apply invalid_config_iff in H.
  destruct (rejected_run s np me H) as (m & Hrun).
  exists 0%Z, m. split; [exact Hrun|].
  rewrite Hrun. now destruct me.
Qed.

Lemma C1_matrix_add_rejects_witness :
  exists c m,
    MatrixAdd.run MatrixAdd.demo 5 2 = Exited c m [Finalize]
    /\ existsb is_comm (trace_of (MatrixAdd.run MatrixAdd.demo 5 2)) = false.
Proof.
  apply (C1_matrix_add_rejects MatrixAdd.demo 5 2).
  - lia.
  - left. vm_compute. discriminate.
Defined.

(** C2: with 4 processes, [A[i][j] = i * 16 + j] and [X[i] = i + 1], the
    vector [result] on rank 0 is the product of [A] and [X]: cell [r] is the
    float of the integer [sum_j A[r][j] * X[j]] (no rounding occurs), which
    is also what the multiplication loop gives on the whole matrix, and the
    four cells from [4 * i] on are the block computed by rank [i]. *)
Theorem C2_scenario_B (s : MatMul.setup) :
  let A i j := (Z.of_nat i * 16 + Z.of_nat j)%Z in
  let X j := (Z.of_nat j + 1)%Z in
  let a := flat_map (fun i => map (fun j => C.f32_of_Z (A i j)) (seq 0 16)) (seq 0 16) in
  let x := map (fun j => C.f32_of_Z (X j)) (seq 0 16) in
  let product r := fold_left Z.add (map (fun j => (A r j * X j)%Z) (seq 0 16)) 0%Z in
  MatMul.root_arrays s = (a, x) /\
  exit_status (MatMul.run s 4 0) = Some 0%Z /\
  MatMul.final_result (MatMul.run s 4 0)
  = Some (map (fun r => C.f32_of_Z (product r)) (seq 0 16)) /\
  option_map (map C.f32_to_Z) (MatMul.final_result (MatMul.run s 4 0))
  = Some (map (fun r => Some (product r)) (seq 0 16)) /\
  MatMul.final_result (MatMul.run s 4 0) = Some (MatMul.mul_spec a x 16) /\
  Forall (fun i =>
            option_map (slice (i * (16 / 4)) (16 / 4))
                       (MatMul.final_result (MatMul.run s 4 0))
            = MatMul.block_of s 4 i)
         (seq 0 4).
Proof.
  cbv zeta. split; [vm_compute; reflexivity|].
  do 4 (split; [vm_compute; reflexivity|]).
  repeat (constructor; [vm_compute; reflexivity|]). constructor.
Qed.

(** C3: with 4 processes, [A = 0..47] and [B = 48..95], each rank holds 12
    contiguous cells of each array and their sums, and the sums of ranks
    0, 1, 2, 3 in this order, which is also the order of the coordinator's
    report, are [48 + 2 * i] for [i] in [0..47]. *)
Theorem C3_scenario_A (s : MatrixAdd.setup) :
  let a := map Z.of_nat (seq 0 48) in
  let b := map Z.of_nat (seq 48 48) in
  let total := map (fun i => (48 + 2 * Z.of_nat i)%Z) (seq 0 48) in
  MatrixAdd.root_arrays s = (a, b) /\
  Forall (fun me =>
            MatrixAdd.local_data (trace_of (MatrixAdd.run s 4 me))
            = Some (slice (me * 12) 12 a, slice (me * 12) 12 b,
                    slice (me * 12) 12 total))
         (seq 0 4) /\
  concat (map (MatrixAdd.sums_of s 4) (seq 0 4)) = total /\
  map fst (MatrixAdd.reported (trace_of (MatrixAdd.run s 4 0))) = seq 0 4 /\
  concat (map snd (MatrixAdd.reported (trace_of (MatrixAdd.run s 4 0)))) = total.
Proof.
  cbv zeta. split; [vm_compute; reflexivity|].
  split; [repeat (constructor; [vm_compute; reflexivity|]); constructor|].
  repeat split; vm_compute; reflexivity.
Qed.

(** C4, as stated, fails on scatter_matrix_mult.c: with 4 processes its
    coordinator receives one message from each other rank, of floats under
    tag 45, and no host name at all. *)
Lemma C4_mult_receives_no_identity :
  map recv_header (MatMul.receives (trace_of (MatMul.run MatMul.demo 4 0)))
  = [Some (1, 45%Z, OfFloats); Some (2, 45%Z, OfFloats); Some (3, 45%Z, OfFloats)].
Proof. vm_compute. reflexivity. Qed.

(** C4 (amended): in an accepted run of matrix_add_v2.c ([np <= MAXPROC]
    and [LENGTH] divisible by [np]) the coordinator receives from the
    ranks 1, 2, ..., np-1 in this order the host name under tag 42 and then
    the sums under tag 43, which are the name and the sums that this rank
    sent, and it prints them under this rank.  In scatter_matrix_mult.c
    with at least 4 processes it receives from the ranks 1, 2, ..., np-1 in
    this order one message each, the block of the rank under tag 45,
    without any host name, and stores the block of rank [i] from cell
    [i * rows_per_proc] of [result] on. *)
Theorem C4_collection_order
    (sa : MatrixAdd.setup) (sm : MatMul.setup) (np : nat) :
  MatrixAdd.nametag <> MatrixAdd.datatag /\
  (MatrixAdd.invalid_config np = false ->
   MatrixAdd.receives (trace_of (MatrixAdd.run sa np 0))
   = flat_map
       (fun i => [Recv (Chars (MatrixAdd.hosts sa i)) i MatrixAdd.nametag;
                  Recv (Ints (MatrixAdd.sums_of sa np i)) i MatrixAdd.datatag])
       (seq 1 (np - 1)) /\
   MatrixAdd.remote_lines (trace_of (MatrixAdd.run sa np 0))
   = map (fun i => (i, MatrixAdd.hosts sa i, MatrixAdd.sums_of sa np i))
         (seq 1 (np - 1)) /\
   Forall
     (fun i =>
        MatrixAdd.sends (trace_of (MatrixAdd.run sa np i))
        = [Send (Chars (MatrixAdd.hosts sa i)) 0 MatrixAdd.nametag;
           Send (Ints (MatrixAdd.sums_of sa np i)) 0 MatrixAdd.datatag])
     (seq 1 (np - 1))) /\
  (4 <= np ->
   MatMul.receives (trace_of (MatMul.run sm np 0))
   = map (fun i => Recv (Floats (MatMul.block sm np i)) i MatMul.resulttag)
         (seq 1 (np - 1)) /\
   (forall i, i < np -> MatMul.block_of sm np i = Some (MatMul.block sm np i)) /\
   exists m,
     MatMul.final_mem (MatMul.run sm np 0) = Some m /\
     forall i, i < np ->
       slice (i * MatMul.rows_per_proc np) (MatMul.rows_per_proc np)
             (MatMul.result m)
       = MatMul.block sm np i).
Proof.
  split; [discriminate|]. split.
  - intros H. each_valid_np H.
    all: split; [vm_compute; reflexivity|].
    all: split; [vm_compute; reflexivity|].
    all: repeat (constructor; [vm_compute; reflexivity|]); constructor.
  - intros Hnp.
    destruct (root_run sm np Hnp) as (m' & E & Hres & Hown).
    change (MatMul.run sm np 0) with (MatMul.run_root sm np).
    split; [|split].
    + rewrite E. cbn [trace_of].
      apply (receives_of_root_run sm np
               [Print (NumProcs np);
                Print (MatrixA (fst (MatMul.root_arrays sm)));
                Print (VectorX (snd (MatMul.root_arrays sm)));
                Scatter (MatMul.rows_per_proc np * MatMul.N) MatMul.root;
                Bcast MatMul.N MatMul.root]
               [Print (FinalVector (MatMul.result m')); Finalize]).
      intros e He. cbn [app In] in He.
      repeat (destruct He as [<- | He]; [reflexivity|]). contradiction.
    + intros i Hi. unfold MatMul.block_of, MatMul.run.
      destruct i as [|i]; cbn [Nat.eqb].
      * rewrite E. cbn [MatMul.final_mem option_map]. now rewrite Hown.
      * destruct (worker_run sm np Hnp (S i) ltac:(lia) Hi) as (mi & Ei & Hi').
        rewrite Ei. cbn [MatMul.final_mem option_map]. now rewrite Hi'.
    + exists m'. rewrite E. split; [reflexivity|].
      intros i Hi. rewrite Hres. now apply block_in_blocks.
Qed.

Lemma C4_collection_order_witness :
  MatrixAdd.receives (trace_of (MatrixAdd.run MatrixAdd.demo 4 0))
  = flat_map
      (fun i => [Recv (Chars (MatrixAdd.hosts MatrixAdd.demo i)) i MatrixAdd.nametag;
                 Recv (Ints (MatrixAdd.sums_of MatrixAdd.demo 4 i)) i MatrixAdd.datatag])
      (seq 1 (4 - 1)) /\
  MatMul.receives (trace_of (MatMul.run MatMul.demo 4 0))
  = map (fun i => Recv (Floats (MatMul.block MatMul.demo 4 i)) i MatMul.resulttag)
        (seq 1 (4 - 1)).
Proof.
  split.
  - apply (proj1 (proj2 (C4_collection_order MatrixAdd.demo MatMul.demo 4))).
    reflexivity.
  - apply (proj2 (proj2 (C4_collection_order MatrixAdd.demo MatMul.demo 4))).
    lia.
Defined.

(** C5, as stated, fails on matrix_add_v2.c: with 5 processes the
    configuration is rejected, and rank 1 exits with status 0 having printed
    nothing. *)
Lemma C5_rejection_exits_zero_silently :
  MatrixAdd.invalid_config 5 = true /\
  exit_status (MatrixAdd.run MatrixAdd.demo 5 1) = Some 0%Z /\
  trace_of (MatrixAdd.run MatrixAdd.demo 5 1) = [Finalize].
Proof. vm_compute. repeat split. Qed.

(** C5 (amended): every process that runs to its end exits with status 0,
    and in matrix_add_v2.c so does every process whose configuration is
    rejected; of those only rank 0 prints the usage line.
    scatter_matrix_mult.c has no rejection path. *)
Theorem C5_exit_status
    (sa : MatrixAdd.setup) (sm : MatMul.setup) (np me : nat) :
  me < np ->
  (MatrixAdd.invalid_config np = false ->
   exit_status (MatrixAdd.run sa np me) = Some 0%Z /\
   existsb is_usage (trace_of (MatrixAdd.run sa np me)) = false) /\
  (MatrixAdd.invalid_config np = true ->
   exit_status (MatrixAdd.run sa np me) = Some 0%Z /\
   existsb is_usage (trace_of (MatrixAdd.run sa np me)) = (me =? 0)) /\
  (4 <= np -> exit_status (MatMul.run sm np me) = Some 0%Z).
Proof.
  intros Hme. split; [|split].
  - intros H. each_valid_np H; each_rank me Hme; split; vm_compute; reflexivity.
  - intros H.
    destruct (rejected_run sa np me H) as (m & E). rewrite E.
    split; [reflexivity|]. now destruct me.
  - intros Hnp. unfold MatMul.run. destruct me as [|me]; cbn [Nat.eqb].
    + destruct (root_run sm np Hnp) as (m' & E & _). now rewrite E.
    + destruct (worker_run sm np Hnp (S me) ltac:(lia) Hme) as (m' & E & _).
      now rewrite E.
Qed.

Lemma C5_exit_status_witness :
  (exit_status (MatrixAdd.run MatrixAdd.demo 4 1) = Some 0%Z /\
   existsb is_usage (trace_of (MatrixAdd.run MatrixAdd.demo 4 1)) = false) /\
  (exit_status (MatrixAdd.run MatrixAdd.demo 5 1) = Some 0%Z /\
   existsb is_usage (trace_of (MatrixAdd.run MatrixAdd.demo 5 1)) = (1 =? 0)) /\
  exit_status (MatMul.run MatMul.demo 4 1) = Some 0%Z.
Proof.
  split; [|split].
  - apply (proj1 (C5_exit_status MatrixAdd.demo MatMul.demo 4 1 ltac:(lia))).
    reflexivity.
  - apply (proj1 (proj2 (C5_exit_status MatrixAdd.demo MatMul.demo 5 1 ltac:(lia)))).
    reflexivity.
  - apply (proj2 (proj2 (C5_exit_status MatrixAdd.demo MatMul.demo 4 1 ltac:(lia)))).
    lia.
Defined.

(** C6, as stated, fails on scatter_matrix_mult.c: 2 divides [N] and the
    256 cells of the matrix, yet the portion of rank 1 would be 128 cells and
    [localA] has 64, so the scatter leaves the buffer on both ranks and
    neither of them ends up holding a portion. *)
Lemma C6_two_processes_hold_no_partition :
  MatMul.N mod 2 = 0 /\
  length (fst (MatMul.root_arrays MatMul.demo)) mod 2 = 0 /\
  length (slice (1 * (MatMul.N * MatMul.N / 2)) (MatMul.N * MatMul.N / 2)
            (fst (MatMul.root_arrays MatMul.demo))) = 128 /\
  MatMul.localA_cells = 64 /\
  MatMul.run MatMul.demo 2 1 = Fault [Scatter 128 MatMul.root] /\
  MatMul.rows_held MatMul.demo 2 0 = None /\
  MatMul.rows_held MatMul.demo 2 1 = None.
Proof. vm_compute. repeat split; reflexivity. Qed.

(** C6 (amended): in every accepted run of matrix_add_v2.c ([np <= MAXPROC]
    and [LENGTH] divisible by [np]) and in every run of
    scatter_matrix_mult.c with at least 4 processes where [np] divides [N],
    the partitioning is rank-ordered, contiguous and complete.  With [c] the
    count of the scatter ([LENGTH / np], respectively [rows_per_proc np * N]),
    rank [me] ends its run holding in its receive buffer, where the scatter
    put them, exactly the elements with indices
    [me * c .. (me + 1) * c - 1] of the root's dataset ([A] and [B],
    respectively [matA]); in matrix_add_v2.c these are also the portions it
    prints.  The index ranges of two ranks do not meet (those of the lower
    rank come first), and the portions of ranks [0 .. np-1] in this order
    make up the dataset. *)
Theorem C6_partition_complete
    (sa : MatrixAdd.setup) (sm : MatMul.setup) (np : nat) :
  (MatrixAdd.invalid_config np = false ->
   let c := MatrixAdd.LENGTH / np in
   let a := fst (MatrixAdd.root_arrays sa) in
   let b := snd (MatrixAdd.root_arrays sa) in
   length a = np * c /\ length b = np * c /\
   (forall me, me < np ->
      MatrixAdd.portions_held sa np me
      = Some (slice (me * c) c a, slice (me * c) c b) /\
      option_map (fun t => (fst (fst t), snd (fst t)))
                 (MatrixAdd.local_data (trace_of (MatrixAdd.run sa np me)))
      = Some (slice (me * c) c a, slice (me * c) c b) /\
      length (slice (me * c) c a) = c /\
      length (slice (me * c) c b) = c /\
      forall j d, j < c ->
        nth j (slice (me * c) c a) d = nth (me * c + j) a d /\
        nth j (slice (me * c) c b) d = nth (me * c + j) b d) /\
   concat (map (fun i => slice (i * c) c a) (seq 0 np)) = a /\
   concat (map (fun i => slice (i * c) c b) (seq 0 np)) = b) /\
  (4 <= np -> MatMul.N mod np = 0 ->
   let c := MatMul.rows_per_proc np * MatMul.N in
   let a := fst (MatMul.root_arrays sm) in
   length a = np * c /\
   (forall me, me < np ->
      MatMul.rows_held sm np me = Some (slice (me * c) c a) /\
      length (slice (me * c) c a) = c /\
      forall j d, j < c -> nth j (slice (me * c) c a) d = nth (me * c + j) a d) /\
   concat (map (fun i => slice (i * c) c a) (seq 0 np)) = a) /\
  (forall c i i' j j' : nat,
     i < i' -> j < c -> j' < c -> i * c + j < i' * c + j').
Proof.
  split; [|split].
  - intros H c a b.
    destruct (add_arrays_length sa) as [Ha Hb].
    pose proof (accepted_divides np H) as Hdiv.
    fold c in Hdiv. fold a in Ha. fold b in Hb.
    split; [lia|]. split; [lia|]. split; [|split].
    + intros me Hme.
      destruct (portions_held_slices sa np me H Hme) as [Eheld Eprint].
      split; [exact Eheld|]. split; [now rewrite Eprint|].
      split; [apply slice_length; nia|]. split; [apply slice_length; nia|].
      intros j d Hj. split; now apply nth_slice.
    + apply (concat_chunks c np a). lia.
    + apply (concat_chunks c np b). lia.
  - intros Hnp Hmod c a.
    destruct (root_arrays_length sm) as [HA _]. fold a in HA.
    destruct (rows_cover_iff np ltac:(lia)) as [Hcover _].
    specialize (Hcover Hmod).
    assert (Hlen : length a = np * c) by (rewrite HA; unfold c; nia).
    split; [exact Hlen|]. split.
    + intros me Hme.
      split; [exact (rows_held_chunk sm np me Hnp Hme)|].
      split; [apply slice_length; nia|].
      intros j d Hj. now apply nth_slice.
    + apply (concat_chunks c np a). exact Hlen.
  - intros c i i' j j' Hi Hj Hj'. nia.
Qed.

Lemma C6_partition_complete_witness :
  (let c := MatrixAdd.LENGTH / 4 in
   let a := fst (MatrixAdd.root_arrays MatrixAdd.demo) in
   let b := snd (MatrixAdd.root_arrays MatrixAdd.demo) in
   length a = 4 * c /\ length b = 4 * c /\
   (forall me, me < 4 ->
      MatrixAdd.portions_held MatrixAdd.demo 4 me
      = Some (slice (me * c) c a, slice (me * c) c b) /\
      option_map (fun t => (fst (fst t), snd (fst t)))
                 (MatrixAdd.local_data (trace_of (MatrixAdd.run MatrixAdd.demo 4 me)))
      = Some (slice (me * c) c a, slice (me * c) c b) /\
      length (slice (me * c) c a) = c /\
      length (slice (me * c) c b) = c /\
      forall j d, j < c ->
        nth j (slice (me * c) c a) d = nth (me * c + j) a d /\
        nth j (slice (me * c) c b) d = nth (me * c + j) b d) /\
   concat (map (fun i => slice (i * c) c a) (seq 0 4)) = a /\
   concat (map (fun i => slice (i * c) c b) (seq 0 4)) = b) /\
  (let c := MatMul.rows_per_proc 4 * MatMul.N in
   let a := fst (MatMul.root_arrays MatMul.demo) in
   length a = 4 * c /\
   (forall me, me < 4 ->
      MatMul.rows_held MatMul.demo 4 me = Some (slice (me * c) c a) /\
      length (slice (me * c) c a) = c /\
      forall j d, j < c -> nth j (slice (me * c) c a) d = nth (me * c + j) a d) /\
   concat (map (fun i => slice (i * c) c a) (seq 0 4)) = a).
Proof.
  split.
  - apply (proj1 (C6_partition_complete MatrixAdd.demo MatMul.demo 4)).
    reflexivity.
  - apply (proj1 (proj2 (C6_partition_complete MatrixAdd.demo MatMul.demo 4))).
    + lia.
    + reflexivity.
Defined.

(** C7: the loop of the coordinator branch and the loop of the worker
    branch are the same function in each program, and the local result of a
    rank depends on its local arrays only: two ranks with the same portions
    (and the same vector [matX]) compute the same values, whatever their
    ranks and whatever else their memories hold. *)
Theorem C7_rank_noninterference
    (np me1 me2 : nat) (a1 a2 : MatrixAdd.mem) (m1 m2 : MatMul.mem) :
  me1 < np -> me2 < np ->
  MatrixAdd.wf a1 -> MatrixAdd.wf a2 ->
  MatrixAdd.localA a1 = MatrixAdd.localA a2 ->
  MatrixAdd.localB a1 = MatrixAdd.localB a2 ->
  MatMul.wf m1 -> MatMul.wf m2 ->
  MatMul.localA m1 = MatMul.localA m2 ->
  MatMul.matX m1 = MatMul.matX m2 ->
  MatrixAdd.root_add np = MatrixAdd.worker_add np /\
  MatMul.root_multiply (MatMul.rows_per_proc np)
  = MatMul.worker_multiply (MatMul.rows_per_proc np) /\
  MatrixAdd.local_result np (MatrixAdd.local_compute np me1 a1)
  = MatrixAdd.local_result np (MatrixAdd.local_compute np me2 a2) /\
  MatrixAdd.local_result np (MatrixAdd.local_compute np me1 a1)
  = Some (MatrixAdd.add_spec (MatrixAdd.localA a1) (MatrixAdd.localB a1)
            (MatrixAdd.LENGTH / np)) /\
  MatMul.local_result np (MatMul.local_compute np me1 m1)
  = MatMul.local_result np (MatMul.local_compute np me2 m2) /\
  (4 <= np ->
   MatMul.local_result np (MatMul.local_compute np me1 m1)
   = Some (MatMul.mul_spec (MatMul.localA m1) (MatMul.matX m1)
             (MatMul.rows_per_proc np))).
Proof.
  intros _ _ Ha1 Ha2 EA EB Hm1 Hm2 EL EX.
  split; [reflexivity|]. split; [reflexivity|].
  rewrite !add_local_result, !mul_local_result by assumption.
  rewrite EA, EB, EL, EX. repeat split.
  intros H. now rewrite (proj2 (Nat.leb_le _ _) (rows_fit np H)).
Qed.

Lemma C7_rank_noninterference_witness :
  let a1 := MatrixAdd.start MatrixAdd.demo 0 in
  let a2 := wr MatrixAdd.arr_localSum (repeat 5%Z 48) (MatrixAdd.start MatrixAdd.demo 3) in
  let m1 := MatMul.start MatMul.demo 0 in
  let m2 := wr MatMul.arr_localResult (repeat C.f32_zero 4) (MatMul.start MatMul.demo 3) in
  MatrixAdd.root_add 4 = MatrixAdd.worker_add 4 /\
  MatMul.root_multiply (MatMul.rows_per_proc 4)
  = MatMul.worker_multiply (MatMul.rows_per_proc 4) /\
  MatrixAdd.local_result 4 (MatrixAdd.local_compute 4 0 a1)
  = MatrixAdd.local_result 4 (MatrixAdd.local_compute 4 3 a2) /\
  MatrixAdd.local_result 4 (MatrixAdd.local_compute 4 0 a1)
  = Some (MatrixAdd.add_spec (MatrixAdd.localA a1) (MatrixAdd.localB a1)
            (MatrixAdd.LENGTH / 4)) /\
  MatMul.local_result 4 (MatMul.local_compute 4 0 m1)
  = MatMul.local_result 4 (MatMul.local_compute 4 3 m2) /\
  (4 <= 4 ->
   MatMul.local_result 4 (MatMul.local_compute 4 0 m1)
   = Some (MatMul.mul_spec (MatMul.localA m1) (MatMul.matX m1)
             (MatMul.rows_per_proc 4))).
Proof.
  apply (C7_rank_noninterference 4 0 3
           (MatrixAdd.start MatrixAdd.demo 0)
           (wr MatrixAdd.arr_localSum (repeat 5%Z 48) (MatrixAdd.start MatrixAdd.demo 3))
           (MatMul.start MatMul.demo 0)
           (wr MatMul.arr_localResult (repeat C.f32_zero 4) (MatMul.start MatMul.demo 3)));
    try reflexivity; try lia; repeat split; reflexivity.
Defined.

(** C8, as stated, fails on scatter_matrix_mult.c: 2 divides [N], each of
    the 2 ranks has 8 rows to multiply and [localResult] has 4 cells, so the
    loop leaves the buffer at row 4 and there is no local result. *)
Lemma C8_two_processes_no_local_result :
  MatMul.N mod 2 = 0 /\
  MatMul.rows_per_proc 2 = 8 /\
  MatMul.localResult_cells = 4 /\
  MatMul.local_result 2 (MatMul.local_compute 2 1 (MatMul.start MatMul.demo 1))
  = None /\
  MatMul.block_of MatMul.demo 2 1 = None.
Proof. vm_compute. repeat split; reflexivity. Qed.

(** C8 (amended): the local result has the shape of the portion, on any
    rank and for any content of arrays of the declared sizes.  In the
    addition program the loop writes [LENGTH / np] cells of [localSum], as
    many as each portion has, cell [i] being the sum of the cells [i] of the
    two portions.  In the multiplication program with at least 4 processes
    the loop writes [N / np] cells of [localResult], one for each of the
    [N / np] rows of [N] cells of the portion, cell [i] being row [i] times
    [matX].  With fewer than 4 processes the multiplication loop leaves
    [localResult] and there is no local result. *)
Theorem C8_shape_preserved
    (np me : nat) (a : MatrixAdd.mem) (m : MatMul.mem) :
  me < np ->
  MatrixAdd.wf a ->
  MatMul.wf m ->
  (let c := MatrixAdd.LENGTH / np in
   let pa := firstn c (MatrixAdd.localA a) in
   let pb := firstn c (MatrixAdd.localB a) in
   exists a' r,
     MatrixAdd.local_compute np me a = Ok tt a' [] /\
     MatrixAdd.localSum a' = r ++ skipn c (MatrixAdd.localSum a) /\
     MatrixAdd.local_result np (MatrixAdd.local_compute np me a) = Some r /\
     length pa = c /\ length pb = c /\ length r = c /\
     forall i, i < c ->
       nth i r 0%Z = C.int_add (nth i pa 0%Z) (nth i pb 0%Z)) /\
  (4 <= np ->
   let rows := MatMul.rows_per_proc np in
   let part := firstn (rows * MatMul.N) (MatMul.localA m) in
   exists m' r,
     MatMul.local_compute np me m = Ok tt m' [] /\
     MatMul.localResult m' = r ++ skipn rows (MatMul.localResult m) /\
     MatMul.local_result np (MatMul.local_compute np me m) = Some r /\
     rows = MatMul.N / np /\
     length part = rows * MatMul.N /\ length r = rows /\
     forall i, i < rows ->
       nth i r C.f32_zero = MatMul.dot_upto part (MatMul.matX m) i MatMul.N) /\
  (np < 4 ->
   MatMul.local_result np (MatMul.local_compute np me m) = None).
Proof.
  intros Hme Ha Hm. split; [|split].
  - intros c pa pb.
    pose proof Ha as (_ & _ & Hla & Hlb & Hls & _).
    pose proof (length_div_le np) as Hc. fold c in Hc.
    exists (wr MatrixAdd.arr_localSum
              (MatrixAdd.add_spec (MatrixAdd.localA a) (MatrixAdd.localB a) c
                 ++ skipn c (MatrixAdd.localSum a)) a),
           (MatrixAdd.add_spec (MatrixAdd.localA a) (MatrixAdd.localB a) c).
    split.
    { unfold MatrixAdd.local_compute.
      destruct (me =? 0);
        [apply root_add_spec | apply worker_add_spec]; fold c; lia. }
    split; [reflexivity|].
    split; [now apply add_local_result|].
    split; [unfold pa; apply firstn_length_le; lia|].
    split; [unfold pb; apply firstn_length_le; lia|].
    split; [apply add_spec_length|].
    intros i Hi. unfold MatrixAdd.add_spec, pa, pb.
    rewrite nth_map_seq by exact Hi. rewrite !nth_firstn.
    now rewrite (proj2 (Nat.ltb_lt _ _) Hi).
  - intros Hnp rows part.
    pose proof Hm as (_ & _ & Hx & _ & Hla & Hlr).
    pose proof (rows_fit np Hnp) as Hrows. fold rows in Hrows.
    assert (Hcells : rows * MatMul.N <= length (MatMul.localA m))
      by (rewrite Hla;
          unfold MatMul.localA_cells, MatMul.localA_rows,
                 MatMul.localResult_cells in *; nia).
    exists (wr MatMul.arr_localResult
              (MatMul.mul_spec (MatMul.localA m) (MatMul.matX m) rows
                 ++ skipn rows (MatMul.localResult m)) m),
           (MatMul.mul_spec (MatMul.localA m) (MatMul.matX m) rows).
    split.
    { unfold MatMul.local_compute. fold rows.
      destruct (me =? 0);
        [apply root_multiply_spec | apply worker_multiply_spec]; lia. }
    split; [reflexivity|].
    split.
    { rewrite mul_local_result by exact Hm. fold rows.
      now rewrite (proj2 (Nat.leb_le _ _) Hrows). }
    split; [reflexivity|].
    split; [unfold part; apply firstn_length_le; exact Hcells|].
    split; [apply mul_spec_length|].
    intros i Hi. unfold MatMul.mul_spec, part.
    rewrite nth_map_seq by exact Hi.
    symmetry. now apply dot_upto_firstn.
  - intros Hnp. rewrite mul_local_result by exact Hm.
    assert (Hover : (MatMul.rows_per_proc np <=? MatMul.localResult_cells) = false).
    { destruct np as [|[|[|[|np]]]]; try lia; reflexivity. }
    now rewrite Hover.
Qed.

Lemma C8_shape_preserved_witness :
  (let c := MatrixAdd.LENGTH / 4 in
   let a := MatrixAdd.start MatrixAdd.demo 2 in
   let pa := firstn c (MatrixAdd.localA a) in
   let pb := firstn c (MatrixAdd.localB a) in
   exists a' r,
     MatrixAdd.local_compute 4 2 a = Ok tt a' [] /\
     MatrixAdd.localSum a' = r ++ skipn c (MatrixAdd.localSum a) /\
     MatrixAdd.local_result 4 (MatrixAdd.local_compute 4 2 a) = Some r /\
     length pa = c /\ length pb = c /\ length r = c /\
     forall i, i < c ->
       nth i r 0%Z = C.int_add (nth i pa 0%Z) (nth i pb 0%Z)) /\
  (let rows := MatMul.rows_per_proc 4 in
   let m := MatMul.start MatMul.demo 2 in
   let part := firstn (rows * MatMul.N) (MatMul.localA m) in
   exists m' r,
     MatMul.local_compute 4 2 m = Ok tt m' [] /\
     MatMul.localResult m' = r ++ skipn rows (MatMul.localResult m) /\
     MatMul.local_result 4 (MatMul.local_compute 4 2 m) = Some r /\
     rows = MatMul.N / 4 /\
     length part = rows * MatMul.N /\ length r = rows /\
     forall i, i < rows ->
       nth i r C.f32_zero = MatMul.dot_upto part (MatMul.matX m) i MatMul.N) /\
  MatMul.local_result 2
    (MatMul.local_compute 2 1 (MatMul.start MatMul.demo 1)) = None.
Proof.
  assert (Wa : MatrixAdd.wf (MatrixAdd.start MatrixAdd.demo 2))
    by (repeat split; reflexivity).
  assert (Wm2 : MatMul.wf (MatMul.start MatMul.demo 2))
    by (repeat split; reflexivity).
  assert (Wm1 : MatMul.wf (MatMul.start MatMul.demo 1))
    by (repeat split; reflexivity).
  split; [|split].
  - apply (proj1 (C8_shape_preserved 4 2 _ (MatMul.start MatMul.demo 2)
                    ltac:(lia) Wa Wm2)).
  - apply (proj1 (proj2 (C8_shape_preserved 4 2 _ (MatMul.start MatMul.demo 2)
                           ltac:(lia) Wa Wm2))). lia.
  - apply (proj2 (proj2 (C8_shape_preserved 2 1 (MatrixAdd.start MatrixAdd.demo 2)
                           (MatMul.start MatMul.demo 1)
                           ltac:(lia) Wa Wm1))). lia.
Defined.

(** C9, as stated, fails: 4 is not the only group size whose accesses stay
    in bounds.  With 8 processes every rank gets 2 rows, which fit the 4
    rows of [localA] and the 4 cells of [localResult], and every rank of the
    group runs to its end. *)
Lemma C9_eight_processes_in_bounds :
  8 <> 4 /\
  MatMul.rows_per_proc 8 * MatMul.N <= MatMul.localA_cells /\
  forallb (fun me => no_fault (MatMul.run MatMul.demo 8 me)) (seq 0 8) = true /\
  forallb (fun me =>
             no_fault (MatMul.scatter_compute (MatMul.worker_net MatMul.demo) 8 me
                         (MatMul.start MatMul.demo me)))
          (seq 1 7) = true.
Proof.
  split; [discriminate|]. split; [vm_compute; lia|].
  split; vm_compute; reflexivity.
Qed.

(** C9 (amended): [localA] has [N / 4] rows, [localResult] [N / 4] cells and
    [hostname] 4 slots, while every rank is sent [rows_per_proc = N / np]
    rows without any check.  The scatter and compute phases stay inside the
    arrays exactly when [np >= 4]; with fewer than 4 processes the receive
    count [rows_per_proc * N] of the scatter exceeds the cells of [localA]
    and the scatter already writes past it. *)
Theorem C9_in_bounds_iff_np_ge_4
    (net : MatMul.network) (np me : nat) (m : MatMul.mem) :
  me < np ->
  MatMul.wf m ->
  length (MatMul.root_matA net) = MatMul.N * MatMul.N ->
  length (MatMul.root_matX net) = MatMul.N ->
  (MatMul.localA_cells = MatMul.N / 4 * MatMul.N /\
   MatMul.localResult_cells = MatMul.N / 4 /\
   MatMul.hostname_slots = 4 /\
   MatMul.rows_per_proc np = MatMul.N / np) /\
  (no_fault (MatMul.scatter_compute net np me m) = true <-> 4 <= np) /\
  (np < 4 ->
   MatMul.localA_cells < MatMul.rows_per_proc np * MatMul.N /\
   MatMul.scatter_compute net np me m
   = Fault [Scatter (MatMul.rows_per_proc np * MatMul.N) MatMul.root]).
Proof.
  intros Hme Hwf HA HX. split; [repeat split|].
  split.
  - split.
    + intros Hok. destruct (Nat.lt_ge_cases np 4) as [Hlt|Hge]; [|exact Hge].
      destruct (scatter_compute_overflow net np me m Hme Hwf HA HX Hlt) as [_ E].
      rewrite E in Hok. discriminate Hok.
    + intros Hge.
      destruct (scatter_compute_fits net np me m Hme Hwf HA HX Hge) as (m' & E & _).
      now rewrite E.
  - intros Hlt. exact (scatter_compute_overflow net np me m Hme Hwf HA HX Hlt).
Qed.

Lemma C9_in_bounds_iff_np_ge_4_witness :
  let net := MatMul.worker_net MatMul.demo in
  let m := MatMul.start MatMul.demo 1 in
  (MatMul.localA_cells = MatMul.N / 4 * MatMul.N /\
   MatMul.localResult_cells = MatMul.N / 4 /\
   MatMul.hostname_slots = 4 /\
   MatMul.rows_per_proc 2 = MatMul.N / 2) /\
  (no_fault (MatMul.scatter_compute net 2 1 m) = true <-> 4 <= 2) /\
  (2 < 4 ->
   MatMul.localA_cells < MatMul.rows_per_proc 2 * MatMul.N /\
   MatMul.scatter_compute net 2 1 m
   = Fault [Scatter (MatMul.rows_per_proc 2 * MatMul.N) MatMul.root]).
Proof.
  apply (C9_in_bounds_iff_np_ge_4 (MatMul.worker_net MatMul.demo) 2 1
           (MatMul.start MatMul.demo 1)).
  - lia.
  - repeat split; reflexivity.
  - vm_compute. reflexivity.
  - vm_compute. reflexivity.
Defined.

(** C10, as stated, fails for a single process, which matrix_add_v2.c
    accepts: there is nothing to receive, and at the end [localSum] holds
    all [LENGTH] sums, the consolidated sequence. *)
Lemma C10_single_process_consolidates :
  MatrixAdd.invalid_config 1 = false /\
  option_map MatrixAdd.localSum (MatrixAdd.final_mem (MatrixAdd.run MatrixAdd.demo 1 0))
  = Some (MatrixAdd.all_sums MatrixAdd.demo 1) /\
  length (MatrixAdd.all_sums MatrixAdd.demo 1) = MatrixAdd.LENGTH /\
  MatrixAdd.all_sums MatrixAdd.demo 1
  = map (fun i => (48 + 2 * Z.of_nat i)%Z) (seq 0 MatrixAdd.LENGTH).
Proof. vm_compute. repeat split; reflexivity. Qed.

(** C10 (amended): in an accepted run of matrix_add_v2.c with at least 2
    processes, the coordinator passes through the end of every round [k] of
    its collection loop ([k = 0]: the entry of the loop) with this memory:
    [A] and [B] as it initialised them, its own portions in [localA] and
    [localB], the sums of rank [k], and of no other rank, in the first
    [LENGTH / np] cells of [localSum], whose other cells were never written,
    and the names of ranks [1 .. k] in [hostname].  So every receive
    overwrites the sums before it, after the last round only the sums of
    rank [np - 1] are left, and the sequence of all [LENGTH] sums is in none
    of [A], [B], [localA], [localB] at the end of any round, nor in
    [localSum] from round 1 on; the sums of each rank are printed in its
    round. *)
Theorem C10_localSum_overwritten (s : MatrixAdd.setup) (np k : nat) :
  MatrixAdd.invalid_config np = false ->
  2 <= np ->
  k < np ->
  let c := MatrixAdd.LENGTH / np in
  let net := MatrixAdd.root_net s np in
  let m0 := MatrixAdd.start s 0 in
  exists m tr,
    MatrixAdd.root_upto net np (MatrixAdd.hosts s 0) k m0 = Ok tt m tr /\
    MatrixAdd.run s np 0 = prepend tr (MatrixAdd.root_from net np k m) /\
    (k = np - 1 -> MatrixAdd.final_mem (MatrixAdd.run s np 0) = Some m) /\
    MatrixAdd.A m = fst (MatrixAdd.root_arrays s) /\
    MatrixAdd.B m = snd (MatrixAdd.root_arrays s) /\
    MatrixAdd.localA m
    = slice 0 c (MatrixAdd.A m) ++ skipn c (MatrixAdd.localA m0) /\
    MatrixAdd.localB m
    = slice 0 c (MatrixAdd.B m) ++ skipn c (MatrixAdd.localB m0) /\
    MatrixAdd.localSum m
    = MatrixAdd.sums_of s np k ++ skipn c (MatrixAdd.localSum m0) /\
    length (MatrixAdd.sums_of s np k) = c /\
    MatrixAdd.hostname m
    = map (fun i => if (1 <=? i) && (i <=? k)
                    then MatrixAdd.hosts s i
                    else MatrixAdd.junkname s 0 i)
          (seq 0 MatrixAdd.MAXPROC) /\
    (forall i, i < np ->
       firstn c (MatrixAdd.localSum m) = MatrixAdd.sums_of s np i -> i = k) /\
    length (MatrixAdd.all_sums s np) = MatrixAdd.LENGTH /\
    MatrixAdd.A m <> MatrixAdd.all_sums s np /\
    MatrixAdd.B m <> MatrixAdd.all_sums s np /\
    MatrixAdd.localA m <> MatrixAdd.all_sums s np /\
    MatrixAdd.localB m <> MatrixAdd.all_sums s np /\
    (1 <= k -> MatrixAdd.localSum m <> MatrixAdd.all_sums s np) /\
    MatrixAdd.reported (trace_of (MatrixAdd.run s np 0))
    = map (fun i => (i, MatrixAdd.sums_of s np i)) (seq 0 np).
Proof.
  intros H Hnp Hk c net m0.
  destruct (root_upto_memory s np k H Hk) as [tr E].
  pose proof (portion_pos np H) as Hc.
  pose proof (sums_of_length s np k H Hk) as Hlen.
  match type of E with _ = Ok tt ?m _ => set (mk := m) in * end.
  exists mk, tr. split; [exact E|].
  assert (Hrun : MatrixAdd.run s np 0 = prepend tr (MatrixAdd.root_from net np k mk)).
  { unfold MatrixAdd.run, MatrixAdd.run_root. cbn [Nat.eqb].
    rewrite (root_stops _ _ _ k) by exact Hk.
    erewrite bind_step by exact E. reflexivity. }
  split; [exact Hrun|].
  split.
  { intros ->. rewrite Hrun, root_from_last by lia. reflexivity. }
  unfold mk.
  cbn [MatrixAdd.A MatrixAdd.B MatrixAdd.localA MatrixAdd.localB
       MatrixAdd.localSum MatrixAdd.hostname].
  do 5 (split; [reflexivity|]).
  split; [exact Hlen|].
  split; [reflexivity|].
  split.
  { intros i Hi Ei.
    rewrite firstn_app, Hlen in Ei. fold c in Ei.
    rewrite Nat.sub_diag, firstn_O, app_nil_r, firstn_all2 in Ei
      by (rewrite Hlen; apply Nat.le_refl).
    apply (f_equal (fun l => nth 0 l 0%Z)) in Ei.
    rewrite !sums_of_head in Ei by assumption. fold c in Ei. nia. }
  split.
  { rewrite all_sums_value by exact H. now rewrite length_map, length_seq. }
  rewrite (all_sums_value s np H), root_arrays_value. cbn [fst snd].
  rewrite (sums_of_value s np k H Hk).
  subst c. clear E Hrun Hlen Hc. clear mk.
  pose proof H as H'. each_valid_np H'; try (exfalso; lia).
  all: each_rank k Hk.
  all: split;
    [intros E; apply (f_equal (fun l => nth 0 l 0%Z)) in E; vm_compute in E;
     discriminate E|].
  all: split;
    [intros E; apply (f_equal (fun l => nth 1 l 0%Z)) in E; vm_compute in E;
     discriminate E|].
  all: split;
    [intros E; apply (f_equal (fun l => nth 0 l 0%Z)) in E; vm_compute in E;
     discriminate E|].
  all: split;
    [intros E; apply (f_equal (fun l => nth 1 l 0%Z)) in E; vm_compute in E;
     discriminate E|].
  all: split;
    [intros Hk1 E; try (exfalso; lia);
     apply (f_equal (fun l => nth 0 l 0%Z)) in E; vm_compute in E;
     discriminate E|].
  all: apply (reported_value s _ H).
Qed.

Lemma C10_localSum_overwritten_witness :
  let s := MatrixAdd.demo in
  let c := MatrixAdd.LENGTH / 4 in
  let net := MatrixAdd.root_net s 4 in
  let m0 := MatrixAdd.start s 0 in
  exists m tr,
    MatrixAdd.root_upto net 4 (MatrixAdd.hosts s 0) 2 m0 = Ok tt m tr /\
    MatrixAdd.run s 4 0 = prepend tr (MatrixAdd.root_from net 4 2 m) /\
    (2 = 4 - 1 -> MatrixAdd.final_mem (MatrixAdd.run s 4 0) = Some m) /\
    MatrixAdd.A m = fst (MatrixAdd.root_arrays s) /\
    MatrixAdd.B m = snd (MatrixAdd.root_arrays s) /\
    MatrixAdd.localA m
    = slice 0 c (MatrixAdd.A m) ++ skipn c (MatrixAdd.localA m0) /\
    MatrixAdd.localB m
    = slice 0 c (MatrixAdd.B m) ++ skipn c (MatrixAdd.localB m0) /\
    MatrixAdd.localSum m
    = MatrixAdd.sums_of s 4 2 ++ skipn c (MatrixAdd.localSum m0) /\
    length (MatrixAdd.sums_of s 4 2) = c /\
    MatrixAdd.hostname m
    = map (fun i => if (1 <=? i) && (i <=? 2)
                    then MatrixAdd.hosts s i
                    else MatrixAdd.junkname s 0 i)
          (seq 0 MatrixAdd.MAXPROC) /\
    (forall i, i < 4 ->
       firstn c (MatrixAdd.localSum m) = MatrixAdd.sums_of s 4 i -> i = 2) /\
    length (MatrixAdd.all_sums s 4) = MatrixAdd.LENGTH /\
    MatrixAdd.A m <> MatrixAdd.all_sums s 4 /\
    MatrixAdd.B m <> MatrixAdd.all_sums s 4 /\
    MatrixAdd.localA m <> MatrixAdd.all_sums s 4 /\
    MatrixAdd.localB m <> MatrixAdd.all_sums s 4 /\
    (1 <= 2 -> MatrixAdd.localSum m <> MatrixAdd.all_sums s 4) /\
    MatrixAdd.reported (trace_of (MatrixAdd.run s 4 0))
    = map (fun i => (i, MatrixAdd.sums_of s 4 i)) (seq 0 4).
Proof.
  apply (C10_localSum_overwritten MatrixAdd.demo 4 2).
  - reflexivity.
  - lia.
  - lia.
Defined.

(* ------------------------------------------------------------------ *)
(** ** Further properties of the two programs *)

Section SequentialProduct.

Lemma seq_from {B} (f : nat -> B) lo n :
  map f (seq lo n) = map (fun r => f (lo + r)) (seq 0 n).
Proof.
  revert lo. induction n as [|n IH]; intros lo; [reflexivity|].
  cbn [seq map]. rewrite Nat.add_0_r. f_equal.
  rewrite IH, <- seq_shift, map_map.
  apply map_ext. intros r. f_equal. lia.
Qed.

(** Rows laid out block after block are the rows in order. *)
Lemma concat_row_blocks {B} (f : nat -> B) rows k :
  concat (map (fun i => map (fun r => f (i * rows + r)) (seq 0 rows)) (seq 0 k))
  = map f (seq 0 (k * rows)).
Proof.
  induction k as [|k IH]; [reflexivity|].
  rewrite seq_S, map_app, concat_app, IH. cbn [map concat Nat.add].
  rewrite app_nil_r.
  replace (S k * rows) with (k * rows + rows) by lia.
  now rewrite seq_app, map_app, Nat.add_0_l, (seq_from f (k * rows) rows).
Qed.

Variable s : MatMul.setup.
Variable np : nat.

Local Abbreviation rows := (MatMul.rows_per_proc np).
Local Abbreviation a := (fst (MatMul.root_arrays s)).
Local Abbreviation x := (snd (MatMul.root_arrays s)).

(** The block of rank [i] is made of the dot products of the rows
    [i * rows .. i * rows + rows - 1] of the root's matrix. *)
Lemma block_rows i :
  i < np ->
  MatMul.block s np i
  = map (fun r => MatMul.dot_upto a x (i * rows + r) MatMul.N) (seq 0 rows).
Proof.
  intros Hi. unfold MatMul.block, MatMul.mul_spec.
  apply map_ext_in. intros r Hr. apply in_seq in Hr.
  unfold MatMul.dot_upto. apply fold_left_ext_in.
  intros acc j Hj. apply in_seq in Hj. do 2 f_equal.
  destruct (root_arrays_length s) as [HA _].
  pose proof (chunk_rows_length a MatMul.N np i HA Hi) as Hlen.
  fold (MatMul.rows_per_proc np) in Hlen.
  rewrite app_nth1 by (rewrite Hlen; nia).
  unfold MPI.scatter_chunk. rewrite nth_slice by nia.
  f_equal. lia.
Qed.

Lemma blocks_rows k :
  k <= np -> MatMul.blocks s np k = MatMul.mul_spec a x (k * rows).
Proof.
  intros Hk. unfold MatMul.blocks, MatMul.mul_spec.
  rewrite <- concat_row_blocks. f_equal.
  apply map_ext_in. intros i Hi. apply in_seq in Hi.
  apply block_rows. lia.
Qed.

End SequentialProduct.

Lemma full_product (s : MatMul.setup) :
  MatMul.mul_spec (fst (MatMul.root_arrays s)) (snd (MatMul.root_arrays s)) MatMul.N
  = map (fun r => C.f32_of_Z (exact_product r)) (seq 0 MatMul.N) /\
  map C.f32_to_Z (map (fun r => C.f32_of_Z (exact_product r)) (seq 0 MatMul.N))
  = map (fun r => Some (exact_product r)) (seq 0 MatMul.N).
Proof. split; vm_compute; reflexivity. Qed.

(** The coordinator's [result] at the end of a run with at least 4
    processes. *)
Lemma root_result (s : MatMul.setup) (np : nat) :
  4 <= np ->
  exists m,
    MatMul.final_mem (MatMul.run s np 0) = Some m /\
    MatMul.result m
    = MatMul.mul_spec (fst (MatMul.root_arrays s)) (snd (MatMul.root_arrays s))
        (np * MatMul.rows_per_proc np)
      ++ skipn (np * MatMul.rows_per_proc np) (MatMul.result (MatMul.start s 0)) /\
    In (Print (FinalVector (MatMul.result m))) (trace_of (MatMul.run s np 0)).
Proof.
  intros Hnp. destruct (root_run s np Hnp) as (m & E & Hres & _).
  change (MatMul.run s np 0) with (MatMul.run_root s np).
  exists m. rewrite E. split; [reflexivity|]. split.
  - rewrite Hres. now rewrite (blocks_rows s np np (Nat.le_refl np)).
  - cbn [trace_of]. do 5 right. apply in_or_app. right. now left.
Qed.

(** X1: with at least 4 processes the coordinator of scatter_matrix_mult.c
    ends with, in the first [np * (N / np)] cells of [result], what the
    multiplication loop gives when it is run once over these rows of the
    whole matrix; the cells after them are never written, and this vector
    is what it prints. *)
Theorem X1_mult_result_is_sequential_prefix (s : MatMul.setup) (np : nat) :
  4 <= np ->
  exists m,
    MatMul.final_mem (MatMul.run s np 0) = Some m /\
    MatMul.result m
    = MatMul.mul_spec (fst (MatMul.root_arrays s)) (snd (MatMul.root_arrays s))
        (np * MatMul.rows_per_proc np)
      ++ skipn (np * MatMul.rows_per_proc np) (MatMul.result (MatMul.start s 0)) /\
    In (Print (FinalVector (MatMul.result m))) (trace_of (MatMul.run s np 0)).
Proof.
  intros Hnp. destruct (root_run s np Hnp) as (m & E & Hres & _).
  change (MatMul.run s np 0) with (MatMul.run_root s np).
  exists m. rewrite E. split; [reflexivity|]. split.
  - rewrite Hres. f_equal. apply blocks_rows. apply Nat.le_refl.
  - cbn [trace_of]. do 5 right. apply in_or_app. right. now left.
Qed.

Lemma X1_mult_result_is_sequential_prefix_witness :
  exists m,
    MatMul.final_mem (MatMul.run MatMul.demo 5 0) = Some m /\
    MatMul.result m
    = MatMul.mul_spec (fst (MatMul.root_arrays MatMul.demo))
        (snd (MatMul.root_arrays MatMul.demo)) (5 * MatMul.rows_per_proc 5)
      ++ skipn (5 * MatMul.rows_per_proc 5)
           (MatMul.result (MatMul.start MatMul.demo 0)) /\
    In (Print (FinalVector (MatMul.result m))) (trace_of (MatMul.run MatMul.demo 5 0)).
Proof. apply (X1_mult_result_is_sequential_prefix MatMul.demo 5). lia. Defined.

(** X2: when the group size is at least 4 and divides 16 (4, 8 or 16
    processes), every cell [r] of the final [result] is the float of the
    integer [sum_j (r * 16 + j) * (j + 1)], the exact product. *)
Theorem X2_mult_exact_when_np_divides (s : MatMul.setup) (np : nat) :
  4 <= np ->
  MatMul.N mod np = 0 ->
  MatMul.final_result (MatMul.run s np 0)
  = Some (map (fun r => C.f32_of_Z (exact_product r)) (seq 0 MatMul.N)) /\
  option_map (map C.f32_to_Z) (MatMul.final_result (MatMul.run s np 0))
  = Some (map (fun r => Some (exact_product r)) (seq 0 MatMul.N)).
Proof.
  intros Hnp Hdiv.
  destruct (root_result s np Hnp) as (m & E & Hres & _).
  destruct (full_product s) as [Hfull Hexact].
  assert (Hm : MatMul.result m
               = map (fun r => C.f32_of_Z (exact_product r)) (seq 0 MatMul.N)).
  { rewrite Hres, (proj1 (rows_cover_iff np ltac:(lia)) Hdiv), Hfull.
    rewrite skipn_all2 by reflexivity. apply app_nil_r. }
  unfold MatMul.final_result. rewrite E. cbn [option_map].
  rewrite Hm. split; [reflexivity|]. now rewrite Hexact.
Qed.

Lemma X2_mult_exact_when_np_divides_witness :
  MatMul.final_result (MatMul.run MatMul.demo 8 0)
  = Some (map (fun r => C.f32_of_Z (exact_product r)) (seq 0 MatMul.N)) /\
  option_map (map C.f32_to_Z) (MatMul.final_result (MatMul.run MatMul.demo 8 0))
  = Some (map (fun r => Some (exact_product r)) (seq 0 MatMul.N)).
Proof.
  apply (X2_mult_exact_when_np_divides MatMul.demo 8); [lia | reflexivity].
Defined.

(** X3: when the group size is at least 4 and does not divide 16, the rows
    from [np * (N / np)] on are given to no rank: the cells of [result] from
    there on, the last one among them, still hold what the uninitialised
    array held, and the coordinator prints them with the rest. *)
Theorem X3_mult_tail_uninitialised (s : MatMul.setup) (np : nat) :
  4 <= np ->
  MatMul.N mod np <> 0 ->
  exists m,
    MatMul.final_mem (MatMul.run s np 0) = Some m /\
    np * MatMul.rows_per_proc np < MatMul.N /\
    skipn (np * MatMul.rows_per_proc np) (MatMul.result m)
    = skipn (np * MatMul.rows_per_proc np) (MatMul.result (MatMul.start s 0)) /\
    nth_error (MatMul.result m) (MatMul.N - 1)
    = Some (MatMul.junk s 0 (MatMul.N * MatMul.N + MatMul.N + (MatMul.N - 1))) /\
    In (Print (FinalVector (MatMul.result m))) (trace_of (MatMul.run s np 0)).
Proof.
  intros Hnp Hndiv.
  destruct (root_result s np Hnp) as (m & E & Hres & Hprint).
  pose proof (proj2 (rows_cover_iff np ltac:(lia)) Hndiv) as Hlt.
  exists m. split; [exact E|]. split; [exact Hlt|].
  assert (Hlen : length (MatMul.mul_spec (fst (MatMul.root_arrays s))
                           (snd (MatMul.root_arrays s))
                           (np * MatMul.rows_per_proc np))
                 = np * MatMul.rows_per_proc np) by apply mul_spec_length.
  split; [|split; [|exact Hprint]].
  - rewrite Hres, skipn_app, Hlen, Nat.sub_diag, skipn_all2 by lia. reflexivity.
  - rewrite Hres, nth_error_app2 by (rewrite Hlen; lia).
    rewrite Hlen, nth_error_skipn.
    replace (np * MatMul.rows_per_proc np + (MatMul.N - 1 - np * MatMul.rows_per_proc np))
      with (MatMul.N - 1) by lia.
    reflexivity.
Qed.

Lemma X3_mult_tail_uninitialised_witness :
  exists m,
    MatMul.final_mem (MatMul.run MatMul.demo 5 0) = Some m /\
    5 * MatMul.rows_per_proc 5 < MatMul.N /\
    skipn (5 * MatMul.rows_per_proc 5) (MatMul.result m)
    = skipn (5 * MatMul.rows_per_proc 5) (MatMul.result (MatMul.start MatMul.demo 0)) /\
    nth_error (MatMul.result m) (MatMul.N - 1)
    = Some (MatMul.junk MatMul.demo 0 (MatMul.N * MatMul.N + MatMul.N + (MatMul.N - 1))) /\
    In (Print (FinalVector (MatMul.result m))) (trace_of (MatMul.run MatMul.demo 5 0)).
Proof.
  apply (X3_mult_tail_uninitialised MatMul.demo 5); [lia | vm_compute; discriminate].
Defined.

Lemma filter_none {A} (f : A -> bool) (l : list A) :
  (forall e, In e l -> f e = false) -> filter f l = [].
Proof.
  induction l as [|e l IH]; intros H; [reflexivity|].
  cbn [filter]. rewrite (H e (or_introl eq_refl)).
  apply IH. intros e' He'. apply H. now right.
Qed.

Lemma filter_none_map {A B} (f : B -> bool) (g : A -> B) (l : list A) :
  (forall u, f (g u) = false) -> filter f (map g l) = [].
Proof.
  intros H. apply filter_none. intros e He.
  apply in_map_iff in He. destruct He as (u & <- & _). apply H.
Qed.

(** X4: point-to-point messages only flow towards rank 0.  The coordinator
    sends none, a worker receives none, and a worker sends to rank 0 only:
    its name and its sums in matrix_add_v2.c, its block in
    scatter_matrix_mult.c. *)
Theorem X4_messages_flow_to_root
    (sa : MatrixAdd.setup) (sm : MatMul.setup) (np me : nat) :
  1 <= me -> me < np ->
  (MatrixAdd.invalid_config np = false ->
   sent (trace_of (MatrixAdd.run sa np 0)) = [] /\
   received (trace_of (MatrixAdd.run sa np me)) = [] /\
   Forall (fun e => match e with Send _ dest _ => dest = 0 | _ => False end)
          (sent (trace_of (MatrixAdd.run sa np me)))) /\
  (4 <= np ->
   sent (trace_of (MatMul.run sm np 0)) = [] /\
   received (trace_of (MatMul.run sm np me)) = [] /\
   sent (trace_of (MatMul.run sm np me))
   = [Send (Floats (MatMul.block sm np me)) 0 MatMul.resulttag]).
Proof.
  intros H1 Hme. split.
  - intros H. each_valid_np H; each_rank me Hme; try lia;
      (split; [vm_compute; reflexivity|]);
      (split; [vm_compute; reflexivity|]);
      vm_compute; repeat constructor.
  - intros Hnp. split; [|split].
    + change (MatMul.run sm np 0) with (MatMul.run_root sm np).
      destruct (root_run sm np Hnp) as (m & E & _). rewrite E.
      cbn [trace_of]. unfold sent. cbn [filter].
      rewrite filter_app, filter_none_map by reflexivity. reflexivity.
    + unfold MatMul.run. destruct me as [|me]; [lia|]. cbn [Nat.eqb].
      destruct (worker_run sm np Hnp (S me) H1 Hme) as (m & E & _).
      rewrite E. reflexivity.
    + unfold MatMul.run. destruct me as [|me]; [lia|]. cbn [Nat.eqb].
      destruct (worker_run sm np Hnp (S me) H1 Hme) as (m & E & _).
      rewrite E. reflexivity.
Qed.

Lemma X4_messages_flow_to_root_witness :
  (sent (trace_of (MatrixAdd.run MatrixAdd.demo 4 0)) = [] /\
   received (trace_of (MatrixAdd.run MatrixAdd.demo 4 2)) = [] /\
   Forall (fun e => match e with Send _ dest _ => dest = 0 | _ => False end)
          (sent (trace_of (MatrixAdd.run MatrixAdd.demo 4 2)))) /\
  (sent (trace_of (MatMul.run MatMul.demo 4 0)) = [] /\
   received (trace_of (MatMul.run MatMul.demo 4 2)) = [] /\
   sent (trace_of (MatMul.run MatMul.demo 4 2))
   = [Send (Floats (MatMul.block MatMul.demo 4 2)) 0 MatMul.resulttag]).
Proof.
  split.
  - apply (proj1 (X4_messages_flow_to_root MatrixAdd.demo MatMul.demo 4 2
                    ltac:(lia) ltac:(lia))).
    reflexivity.
  - apply (proj2 (X4_messages_flow_to_root MatrixAdd.demo MatMul.demo 4 2
                    ltac:(lia) ltac:(lia))).
    lia.
Defined.

(** X5: every rank of a run issues the same collective calls in the same
    order with the same counts: two scatters of [LENGTH / np] in
    matrix_add_v2.c once the group size is accepted, a scatter of
    [(N / np) * N] and a broadcast of [N] in scatter_matrix_mult.c with at
    least 4 processes. *)
Theorem X5_collectives_in_lockstep
    (sa : MatrixAdd.setup) (sm : MatMul.setup) (np me : nat) :
  me < np ->
  (MatrixAdd.invalid_config np = false ->
   collectives (trace_of (MatrixAdd.run sa np me))
   = [Scatter (MatrixAdd.LENGTH / np) MatrixAdd.root;
      Scatter (MatrixAdd.LENGTH / np) MatrixAdd.root]) /\
  (4 <= np ->
   collectives (trace_of (MatMul.run sm np me))
   = [Scatter (MatMul.rows_per_proc np * MatMul.N) MatMul.root;
      Bcast MatMul.N MatMul.root]).
Proof.
  intros Hme. split.
  - intros H. each_valid_np H; each_rank me Hme; vm_compute; reflexivity.
  - intros Hnp. unfold MatMul.run. destruct me as [|me]; cbn [Nat.eqb].
    + destruct (root_run sm np Hnp) as (m & E & _). rewrite E.
      cbn [trace_of]. unfold collectives. cbn [filter].
      rewrite filter_app, filter_none_map by reflexivity. reflexivity.
    + destruct (worker_run sm np Hnp (S me) ltac:(lia) Hme) as (m & E & _).
      rewrite E. reflexivity.
Qed.

Lemma X5_collectives_in_lockstep_witness :
  collectives (trace_of (MatrixAdd.run MatrixAdd.demo 6 5))
  = [Scatter (MatrixAdd.LENGTH / 6) MatrixAdd.root;
     Scatter (MatrixAdd.LENGTH / 6) MatrixAdd.root] /\
  collectives (trace_of (MatMul.run MatMul.demo 6 5))
  = [Scatter (MatMul.rows_per_proc 6 * MatMul.N) MatMul.root;
     Bcast MatMul.N MatMul.root].
Proof.
  split.
  - apply (proj1 (X5_collectives_in_lockstep MatrixAdd.demo MatMul.demo 6 5 ltac:(lia))).
    reflexivity.
  - apply (proj2 (X5_collectives_in_lockstep MatrixAdd.demo MatMul.demo 6 5 ltac:(lia))).
    lia.
Defined.

Section Coverage.
Context {T : Type}.

Lemma chunk_of_prefix c n i (d : list T) :
  i < n ->
  MPI.scatter_chunk c i (firstn (n * c) d) = MPI.scatter_chunk c i d.
Proof.
  intros Hi. unfold MPI.scatter_chunk, slice.
  rewrite skipn_firstn_comm, firstn_firstn.
  f_equal. nia.
Qed.

(** The chunks of [n] ranks, one after the other, are the first [n * c]
    elements of the send buffer. *)
Lemma concat_chunks_prefix c n (d : list T) :
  n * c <= length d ->
  concat (map (fun i => MPI.scatter_chunk c i d) (seq 0 n)) = firstn (n * c) d.
Proof.
  intros H.
  rewrite <- (concat_chunks c n (firstn (n * c) d))
    by (apply firstn_length_le; exact H).
  f_equal. symmetry. apply map_ext_in. intros i Hi. apply in_seq in Hi.
  apply chunk_of_prefix. lia.
Qed.

End Coverage.

(** X6: in scatter_matrix_mult.c with at least 4 processes every rank ends
    its run holding in [localA] the rows the scatter sent it, which are the
    cells [me * c .. me * c + c - 1] of the root's matrix for
    [c = (N / np) * N].  Rank after rank these are the first
    [np * (N / np) * N] cells of the matrix and nothing else: all of it
    when [np] divides [N], and when it does not the cells after them reach
    no rank. *)
Theorem X6_mult_rows_handed_out (s : MatMul.setup) (np : nat) :
  4 <= np ->
  let c := MatMul.rows_per_proc np * MatMul.N in
  let a := fst (MatMul.root_arrays s) in
  (forall me, me < np ->
     MatMul.rows_held s np me = Some (MPI.scatter_chunk c me a) /\
     length (MPI.scatter_chunk c me a) = c /\
     forall j d, j < c ->
       me * c + j < np * c /\
       nth j (MPI.scatter_chunk c me a) d = nth (me * c + j) a d) /\
  concat (map (fun i => MPI.scatter_chunk c i a) (seq 0 np)) = firstn (np * c) a /\
  (MatMul.N mod np = 0 -> np * c = length a) /\
  (MatMul.N mod np <> 0 -> np * c < length a).
Proof.
  intros Hnp c a.
  destruct (root_arrays_length s) as [HA _]. fold a in HA.
  destruct (rows_cover_iff np ltac:(lia)) as [Hdiv Hndiv].
  pose proof (Nat.Div0.mul_div_le MatMul.N np) as Hle.
  fold (MatMul.rows_per_proc np) in Hle.
  split; [|split; [|split]].
  - intros me Hme.
    split; [exact (rows_held_chunk s np me Hnp Hme)|].
    split; [apply slice_length; unfold c; nia|].
    intros j d Hj. split; [nia|]. now apply nth_slice.
  - apply concat_chunks_prefix. rewrite HA. unfold c. nia.
  - intros H. rewrite HA. unfold c. specialize (Hdiv H). nia.
  - intros H. rewrite HA. unfold c. specialize (Hndiv H).
    unfold MatMul.N in *. nia.
Qed.

Lemma X6_mult_rows_handed_out_witness :
  let c := MatMul.rows_per_proc 5 * MatMul.N in
  let a := fst (MatMul.root_arrays MatMul.demo) in
  (forall me, me < 5 ->
     MatMul.rows_held MatMul.demo 5 me = Some (MPI.scatter_chunk c me a) /\
     length (MPI.scatter_chunk c me a) = c /\
     forall j d, j < c ->
       me * c + j < 5 * c /\
       nth j (MPI.scatter_chunk c me a) d = nth (me * c + j) a d) /\
  concat (map (fun i => MPI.scatter_chunk c i a) (seq 0 5)) = firstn (5 * c) a /\
  (MatMul.N mod 5 = 0 -> 5 * c = length a) /\
  (MatMul.N mod 5 <> 0 -> 5 * c < length a).
Proof. apply (X6_mult_rows_handed_out MatMul.demo 5). lia. Defined.

(** X7: the compute loops are silent and local.  They emit no event, and
    of the whole memory they change only the first [LENGTH / np] cells of
    [localSum], respectively the first [N / np] cells of [localResult]. *)
Theorem X7_compute_loops_frame
    (np me : nat) (a : MatrixAdd.mem) (m : MatMul.mem) :
  me < np ->
  MatrixAdd.wf a -> MatMul.wf m ->
  (exists a',
     MatrixAdd.local_compute np me a = Ok tt a' [] /\
     MatrixAdd.wf a' /\
     MatrixAdd.A a' = MatrixAdd.A a /\ MatrixAdd.B a' = MatrixAdd.B a /\
     MatrixAdd.localA a' = MatrixAdd.localA a /\
     MatrixAdd.localB a' = MatrixAdd.localB a /\
     MatrixAdd.hostname a' = MatrixAdd.hostname a /\
     skipn (MatrixAdd.LENGTH / np) (MatrixAdd.localSum a')
     = skipn (MatrixAdd.LENGTH / np) (MatrixAdd.localSum a)) /\
  (4 <= np ->
   exists m',
     MatMul.local_compute np me m = Ok tt m' [] /\
     MatMul.wf m' /\
     MatMul.hostname m' = MatMul.hostname m /\
     MatMul.matA m' = MatMul.matA m /\ MatMul.matX m' = MatMul.matX m /\
     MatMul.result m' = MatMul.result m /\
     MatMul.localA m' = MatMul.localA m /\
     skipn (MatMul.rows_per_proc np) (MatMul.localResult m')
     = skipn (MatMul.rows_per_proc np) (MatMul.localResult m)).
Proof.
  intros Hme Ha Hm. split.
  - pose proof Ha as (HA & HB & HLA & HLB & HLS & HH).
    pose proof (length_div_le np) as Hc.
    eexists. split.
    + unfold MatrixAdd.local_compute.
      destruct (me =? 0);
        [apply root_add_spec | apply worker_add_spec]; lia.
    + cbn [wr MatrixAdd.arr_localSum MatrixAdd.A MatrixAdd.B MatrixAdd.localA
           MatrixAdd.localB MatrixAdd.localSum MatrixAdd.hostname].
      split; [|repeat split].
      * unfold MatrixAdd.wf.
        cbn [MatrixAdd.A MatrixAdd.B MatrixAdd.localA MatrixAdd.localB
             MatrixAdd.localSum MatrixAdd.hostname].
        rewrite length_app, add_spec_length, length_skipn.
        repeat split; lia.
      * rewrite skipn_app, add_spec_length, Nat.sub_diag, skipn_all2
          by (rewrite add_spec_length; lia).
        reflexivity.
  - intros Hnp. pose proof Hm as (HH & HA & HX & HR & HLA & HLR).
    pose proof (rows_fit np Hnp) as Hrows.
    assert (Hcells : MatMul.rows_per_proc np * MatMul.N <= length (MatMul.localA m))
      by (rewrite HLA;
          unfold MatMul.localA_cells, MatMul.localA_rows, MatMul.localResult_cells in *;
          nia).
    eexists. split.
    + unfold MatMul.local_compute.
      destruct (me =? 0);
        [apply root_multiply_spec | apply worker_multiply_spec]; lia.
    + cbn [wr MatMul.arr_localResult MatMul.hostname MatMul.matA MatMul.matX
           MatMul.result MatMul.localA MatMul.localResult].
      split; [|repeat split].
      * unfold MatMul.wf.
        cbn [MatMul.hostname MatMul.matA MatMul.matX MatMul.result MatMul.localA
             MatMul.localResult].
        rewrite length_app, mul_spec_length, length_skipn.
        repeat split; lia.
      * rewrite skipn_app, mul_spec_length, Nat.sub_diag, skipn_all2
          by (rewrite mul_spec_length; lia).
        reflexivity.
Qed.

Lemma X7_compute_loops_frame_witness :
  let a := MatrixAdd.start MatrixAdd.demo 1 in
  let m := MatMul.start MatMul.demo 1 in
  (exists a',
     MatrixAdd.local_compute 4 1 a = Ok tt a' [] /\
     MatrixAdd.wf a' /\
     MatrixAdd.A a' = MatrixAdd.A a /\ MatrixAdd.B a' = MatrixAdd.B a /\
     MatrixAdd.localA a' = MatrixAdd.localA a /\
     MatrixAdd.localB a' = MatrixAdd.localB a /\
     MatrixAdd.hostname a' = MatrixAdd.hostname a /\
     skipn (MatrixAdd.LENGTH / 4) (MatrixAdd.localSum a')
     = skipn (MatrixAdd.LENGTH / 4) (MatrixAdd.localSum a)) /\
  (4 <= 4 ->
   exists m',
     MatMul.local_compute 4 1 m = Ok tt m' [] /\
     MatMul.wf m' /\
     MatMul.hostname m' = MatMul.hostname m /\
     MatMul.matA m' = MatMul.matA m /\ MatMul.matX m' = MatMul.matX m /\
     MatMul.result m' = MatMul.result m /\
     MatMul.localA m' = MatMul.localA m /\
     skipn (MatMul.rows_per_proc 4) (MatMul.localResult m')
     = skipn (MatMul.rows_per_proc 4) (MatMul.localResult m)).
Proof.
  apply (X7_compute_loops_frame 4 1 (MatrixAdd.start MatrixAdd.demo 1)
           (MatMul.start MatMul.demo 1)).
  - lia.
  - repeat split; reflexivity.
  - repeat split; reflexivity.
Defined.

(** X8: for every group size that matrix_add_v2.c accepts (1, 2, 3, 4, 6
    or 8), the sums of the ranks in rank order, which is the order of the
    coordinator's report, are the sums of the whole arrays:
    [A[i] + B[i] = 48 + 2 * i] for [i] in [0..47], with no wrap-around. *)
Theorem X8_add_sums_in_order_for_every_accepted_size
    (s : MatrixAdd.setup) (np : nat) :
  MatrixAdd.invalid_config np = false ->
  let total := map (fun i => (48 + 2 * Z.of_nat i)%Z) (seq 0 MatrixAdd.LENGTH) in
  MatrixAdd.add_spec (fst (MatrixAdd.root_arrays s)) (snd (MatrixAdd.root_arrays s))
    MatrixAdd.LENGTH = total /\
  concat (map (MatrixAdd.sums_of s np) (seq 0 np)) = total /\
  map fst (MatrixAdd.reported (trace_of (MatrixAdd.run s np 0))) = seq 0 np /\
  concat (map snd (MatrixAdd.reported (trace_of (MatrixAdd.run s np 0)))) = total.
Proof.
  intros H. cbv zeta. each_valid_np H.
  all: repeat split; vm_compute; reflexivity.
Qed.

Lemma X8_add_sums_in_order_for_every_accepted_size_witness :
  let total := map (fun i => (48 + 2 * Z.of_nat i)%Z) (seq 0 MatrixAdd.LENGTH) in
  MatrixAdd.add_spec (fst (MatrixAdd.root_arrays MatrixAdd.demo))
    (snd (MatrixAdd.root_arrays MatrixAdd.demo)) MatrixAdd.LENGTH = total /\
  concat (map (MatrixAdd.sums_of MatrixAdd.demo 6) (seq 0 6)) = total /\
  map fst (MatrixAdd.reported (trace_of (MatrixAdd.run MatrixAdd.demo 6 0))) = seq 0 6 /\
  concat (map snd (MatrixAdd.reported (trace_of (MatrixAdd.run MatrixAdd.demo 6 0))))
  = total.
Proof.
  apply (X8_add_sums_in_order_for_every_accepted_size MatrixAdd.demo 6). reflexivity.
Defined.

(** X9: at the end of an accepted run the coordinator's table [hostname]
    holds in row [i] the name of rank [i] for [1 <= i < np]; row 0 and the
    rows from [np] on were never written.  A worker never writes its
    table, nor its arrays [A] and [B]. *)
Theorem X9_add_hostname_table (s : MatrixAdd.setup) (np : nat) :
  MatrixAdd.invalid_config np = false ->
  option_map MatrixAdd.hostname (MatrixAdd.final_mem (MatrixAdd.run s np 0))
  = Some (map (fun i => if (1 <=? i) && (i <? np)
                        then MatrixAdd.hosts s i
                        else MatrixAdd.junkname s 0 i)
              (seq 0 MatrixAdd.MAXPROC)) /\
  Forall
    (fun me =>
       option_map (fun m => (MatrixAdd.hostname m, MatrixAdd.A m, MatrixAdd.B m))
                  (MatrixAdd.final_mem (MatrixAdd.run s np me))
       = Some (MatrixAdd.hostname (MatrixAdd.start s me),
               MatrixAdd.A (MatrixAdd.start s me),
               MatrixAdd.B (MatrixAdd.start s me)))
    (seq 1 (np - 1)).
Proof.
  intros H. each_valid_np H.
  all: split; [vm_compute; reflexivity|].
  all: repeat (constructor; [vm_compute; reflexivity|]); constructor.
Qed.

Lemma X9_add_hostname_table_witness :
  option_map MatrixAdd.hostname
    (MatrixAdd.final_mem (MatrixAdd.run MatrixAdd.demo 3 0))
  = Some (map (fun i => if (1 <=? i) && (i <? 3)
                        then MatrixAdd.hosts MatrixAdd.demo i
                        else MatrixAdd.junkname MatrixAdd.demo 0 i)
              (seq 0 MatrixAdd.MAXPROC)) /\
  Forall
    (fun me =>
       option_map (fun m => (MatrixAdd.hostname m, MatrixAdd.A m, MatrixAdd.B m))
                  (MatrixAdd.final_mem (MatrixAdd.run MatrixAdd.demo 3 me))
       = Some (MatrixAdd.hostname (MatrixAdd.start MatrixAdd.demo me),
               MatrixAdd.A (MatrixAdd.start MatrixAdd.demo me),
               MatrixAdd.B (MatrixAdd.start MatrixAdd.demo me)))
    (seq 1 (3 - 1)).
Proof. apply (X9_add_hostname_table MatrixAdd.demo 3). reflexivity. Defined.

(** X10: when matrix_add_v2.c rejects the group size, rank 0 has by then
    filled [A] and [B] (lines 46-53 come before the check) and written
    nothing else, and the memory of every other rank is as it started. *)
Theorem X10_add_rejection_memory (s : MatrixAdd.setup) (np me : nat) :
  me < np ->
  MatrixAdd.LENGTH mod np <> 0 \/ MatrixAdd.MAXPROC < np ->
  MatrixAdd.final_mem (MatrixAdd.run s np me)
  = Some (if me =? 0
          then wr MatrixAdd.arr_A (map Z.of_nat (seq 0 48))
                 (wr MatrixAdd.arr_B (map Z.of_nat (seq 48 48)) (MatrixAdd.start s 0))
          else MatrixAdd.start s me).
Proof.
  intros _ H. apply invalid_config_iff in H. destruct me as [|me].
  - unfold MatrixAdd.run, MatrixAdd.run_root, MatrixAdd.main. cbn [Nat.eqb].
    rewrite H. vm_compute. reflexivity.
  - unfold MatrixAdd.run, MatrixAdd.run_worker, MatrixAdd.main. cbn [Nat.eqb].
    rewrite H. vm_compute. reflexivity.
Qed.

Lemma X10_add_rejection_memory_witness :
  MatrixAdd.final_mem (MatrixAdd.run MatrixAdd.demo 9 0)
  = Some (wr MatrixAdd.arr_A (map Z.of_nat (seq 0 48))
            (wr MatrixAdd.arr_B (map Z.of_nat (seq 48 48))
               (MatrixAdd.start MatrixAdd.demo 0))).
Proof.
  apply (X10_add_rejection_memory MatrixAdd.demo 9 0).
  - lia.
  - right. vm_compute. lia.
Defined.

Lemma firstn_seq_le k : forall a n, k <= n -> firstn k (seq a n) = seq a k.
Proof.
  induction k as [|k IH]; intros a n Hk; [reflexivity|].
  destruct n as [|n]; [lia|]. cbn [seq firstn]. f_equal. apply IH. lia.
Qed.

Lemma slice_map_seq {B} (f : nat -> B) off cnt n :
  off + cnt <= n -> slice off cnt (map f (seq 0 n)) = map f (seq off cnt).
Proof.
  intros H. unfold slice.
  rewrite skipn_map, firstn_map, skipn_seq, firstn_seq_le by lia.
  reflexivity.
Qed.

(** X11: with at least 4 processes, what rank [me] of
    scatter_matrix_mult.c holds in [localResult] at the end, and what a
    worker prints and sends, is the run of cells
    [me * (N / np) .. (me + 1) * (N / np) - 1] of the product computed by
    one pass of the multiplication loop over the whole matrix. *)
Theorem X11_mult_block_is_rows_of_product (s : MatMul.setup) (np me : nat) :
  4 <= np ->
  me < np ->
  let whole := MatMul.mul_spec (fst (MatMul.root_arrays s))
                 (snd (MatMul.root_arrays s)) MatMul.N in
  let mine := slice (me * MatMul.rows_per_proc np) (MatMul.rows_per_proc np) whole in
  MatMul.block_of s np me = Some mine /\
  (1 <= me ->
   In (Print (Computed me (MatMul.hosts s me) mine)) (trace_of (MatMul.run s np me)) /\
   In (Send (Floats mine) 0 MatMul.resulttag) (trace_of (MatMul.run s np me))).
Proof.
  intros Hnp Hme whole mine.
  assert (Hmine : MatMul.block s np me = mine).
  { unfold mine, whole, MatMul.mul_spec.
    pose proof (Nat.Div0.mul_div_le MatMul.N np) as Hle.
    fold (MatMul.rows_per_proc np) in Hle.
    rewrite slice_map_seq by nia.
    rewrite (block_rows s np me Hme). symmetry. apply seq_from. }
  unfold MatMul.block_of, MatMul.run. destruct me as [|me]; cbn [Nat.eqb].
  - split; [|lia].
    destruct (root_run s np Hnp) as (m & E & _ & Hown). rewrite E.
    cbn [MatMul.final_mem option_map]. now rewrite Hown, Hmine.
  - destruct (worker_run s np Hnp (S me) ltac:(lia) Hme) as (m & E & Hown).
    rewrite E. cbn [MatMul.final_mem option_map trace_of].
    rewrite Hown, Hmine. split; [reflexivity|]. intros _.
    split; [do 2 right; now left | do 3 right; now left].
Qed.

Lemma X11_mult_block_is_rows_of_product_witness :
  let whole := MatMul.mul_spec (fst (MatMul.root_arrays MatMul.demo))
                 (snd (MatMul.root_arrays MatMul.demo)) MatMul.N in
  let mine := slice (3 * MatMul.rows_per_proc 5) (MatMul.rows_per_proc 5) whole in
  MatMul.block_of MatMul.demo 5 3 = Some mine /\
  (1 <= 3 ->
   In (Print (Computed 3 (MatMul.hosts MatMul.demo 3) mine))
      (trace_of (MatMul.run MatMul.demo 5 3)) /\
   In (Send (Floats mine) 0 MatMul.resulttag) (trace_of (MatMul.run MatMul.demo 5 3))).
Proof. apply (X11_mult_block_is_rows_of_product MatMul.demo 5 3); lia. Defined.

(** X12: every process that ends has called MPI_Finalize exactly once, as
    its last action: on the accepted and on the rejected path of
    matrix_add_v2.c, and in scatter_matrix_mult.c with at least 4
    processes. *)
Theorem X12_finalize_once_and_last
    (sa : MatrixAdd.setup) (sm : MatMul.setup) (np me : nat) :
  me < np ->
  (finalizes (trace_of (MatrixAdd.run sa np me)) = [Finalize] /\
   last (trace_of (MatrixAdd.run sa np me)) (Print Ready) = Finalize) /\
  (4 <= np ->
   finalizes (trace_of (MatMul.run sm np me)) = [Finalize] /\
   last (trace_of (MatMul.run sm np me)) (Print Ready) = Finalize).
Proof.
  intros Hme. split.
  - destruct (MatrixAdd.invalid_config np) eqn:H.
    + destruct (rejected_run sa np me H) as (m & E). rewrite E.
      destruct me; split; reflexivity.
    + each_valid_np H; each_rank me Hme; split; vm_compute; reflexivity.
  - intros Hnp. unfold MatMul.run. destruct me as [|me]; cbn [Nat.eqb].
    + destruct (root_run sm np Hnp) as (m & E & _). rewrite E. cbn [trace_of].
      split.
      * unfold finalizes. cbn [filter].
        rewrite filter_app, filter_none_map by reflexivity. reflexivity.
      * change (last ([Print (NumProcs np);
                        Print (MatrixA (fst (MatMul.root_arrays sm)));
                        Print (VectorX (snd (MatMul.root_arrays sm)));
                        Scatter (MatMul.rows_per_proc np * MatMul.N) MatMul.root;
                        Bcast MatMul.N MatMul.root]
                       ++ map (fun i => Recv (Floats (MatMul.block sm np i)) i
                                             MatMul.resulttag)
                              (seq 1 (np - 1))
                       ++ [Print (FinalVector (MatMul.result m))] ++ [Finalize])
                      (Print Ready) = Finalize).
        rewrite !app_assoc. apply last_last.
    + destruct (worker_run sm np Hnp (S me) ltac:(lia) Hme) as (m & E & _).
      rewrite E. split; reflexivity.
Qed.

Lemma X12_finalize_once_and_last_witness :
  (finalizes (trace_of (MatrixAdd.run MatrixAdd.demo 5 3)) = [Finalize] /\
   last (trace_of (MatrixAdd.run MatrixAdd.demo 5 3)) (Print Ready) = Finalize) /\
  (4 <= 5 ->
   finalizes (trace_of (MatMul.run MatMul.demo 5 3)) = [Finalize] /\
   last (trace_of (MatMul.run MatMul.demo 5 3)) (Print Ready) = Finalize).
Proof. apply (X12_finalize_once_and_last MatrixAdd.demo MatMul.demo 5 3). lia. Defined.
